(** * nova-front: the streaming decoder and the text normalizer of [Chat.jsx]

    A shallow embedding of [src/components/Chat.jsx] and of the HTML
    chain of [src/components/SessionDetail.jsx]:
    - [preprocessText], the chain of [String.prototype.replace] calls, over a
      backtracking matcher that follows the ECMAScript pattern semantics
      (ordered alternation, greedy and lazy quantifiers, capture groups,
      negative lookahead, [\b], [^] and [$]);
    - the read loop of [handleSendMessage] (residual buffer, frame split,
      ["data:"] filter, ["[DONE]"] sentinel, accumulated content);
    - [handleCancel], over a store of message objects;
    - [generateChatTitle], the submission of [handleSendMessage] and the
      state updater its read loop calls;
    - the replacement chain that turns a stored message into HTML.

    Strings are sequences of code units; the development keeps to code
    units below 256, so a string is a [list ascii].  White space is the
    ECMAScript set cut to that range: TAB, LF, VT, FF, CR, SP and NBSP. *)

From Stdlib Require Import String Ascii List Bool Arith Lia.
From Stdlib Require Import DecimalString.
Import ListNotations.

Set Implicit Arguments.

(* ------------------------------------------------------------------ *)
(** ** Strings *)

Module Str.

Definition t := list ascii.

Definition of_string : string -> t := list_ascii_of_string.

Definition eqb (a b : t) : bool :=
  String.eqb (string_of_list_ascii a) (string_of_list_ascii b).

(** [String.prototype.startsWith] *)
Fixpoint startsWith (p s : t) : bool :=
  match p, s with
  | [], _ => true
  | _ :: _, [] => false
  | a :: p', b :: s' => Ascii.eqb a b && startsWith p' s'
  end.

(** [String.prototype.slice(n)] for [0 <= n] *)
Definition slice (n : nat) (s : t) : t := skipn n s.

Definition code (c : ascii) : nat := nat_of_ascii c.

Definition in_range (lo hi : nat) (c : ascii) : bool :=
  (lo <=? code c) && (code c <=? hi).

(** The code units of [WhiteSpace] and [LineTerminator] below 256. *)
Definition is_space (c : ascii) : bool :=
  in_range 9 13 c || (code c =? 32) || (code c =? 160).

Definition is_digit (c : ascii) : bool := in_range 48 57 c.

(** [\w] is [A-Za-z0-9_]. *)
Definition is_word (c : ascii) : bool :=
  in_range 97 122 c || in_range 65 90 c || is_digit c || (code c =? 95).

(** [\n] and [\r], the line terminators below 256. *)
Definition is_line_terminator (c : ascii) : bool :=
  (code c =? 10) || (code c =? 13).

Fixpoint trimStart (s : t) : t :=
  match s with
  | c :: s' => if is_space c then trimStart s' else s
  | [] => []
  end.

Definition trimEnd (s : t) : t := rev (trimStart (rev s)).

(** [String.prototype.trim] *)
Definition trim (s : t) : t := trimEnd (trimStart s).

(** [String.prototype.split(sep)] for a non-empty separator: the pieces
    between the occurrences of [sep], found left to right, an occurrence
    starting where the previous one ended at the earliest.  [skip] counts
    the code units of the current occurrence still to pass over, [cur]
    is the piece being built, reversed. *)
Fixpoint split_go (sep : t) (skip : nat) (cur : t) (s : t) : list t :=
  match skip with
  | S j =>
      match s with
      | [] => [rev cur]
      | _ :: s' => split_go sep j cur s'
      end
  | 0 =>
      match s with
      | [] => [rev cur]
      | c :: s' =>
          if startsWith sep s
          then rev cur :: split_go sep (length sep - 1) [] s'
          else split_go sep 0 (c :: cur) s'
      end
  end.

Definition split (sep s : t) : list t := split_go sep 0 [] s.

End Str.

Abbreviation str := Str.of_string.

(* ------------------------------------------------------------------ *)
(** ** Patterns *)

Module Re.

(** A member of a character class. *)
Inductive citem :=
| IChar (c : ascii)
| ISpace          (* \s *)
| INotSpace       (* \S *)
| IDigit          (* \d *)
| IWord.          (* \w *)

Inductive regex :=
| Eps
| Chr (c : ascii)
| Dot                                  (* .  : all but line terminators *)
| Cls (neg : bool) (items : list citem) (* [...] and [^...]; \s \d \w *)
| Seq (r1 r2 : regex)
| Alt (r1 r2 : regex)
| Rep (greedy : bool) (min : nat) (max : option nat) (r : regex)
| Grp (i : nat) (r : regex)            (* the i-th capturing group *)
| NegLook (r : regex)                  (* (?!r) *)
| WordB                                (* \b *)
| Bol                                  (* ^ *)
| Eol.                                 (* $ *)

Definition item_mem (c : ascii) (i : citem) : bool :=
  match i with
  | IChar d => Ascii.eqb c d
  | ISpace => Str.is_space c
  | INotSpace => negb (Str.is_space c)
  | IDigit => Str.is_digit c
  | IWord => Str.is_word c
  end.

Definition cls_mem (neg : bool) (items : list citem) (c : ascii) : bool :=
  xorb neg (existsb (item_mem c) items).

(** The matcher state: the code unit before the current position (none at
    the start of the input), the input from the current position on, and
    the captures made so far. *)
Record state := mkState {
  prev : option ascii;
  rest : Str.t;
  caps : list (nat * Str.t)
}.

Definition matcher := state -> (state -> option state) -> option state.

Definition orelse (a : option state) (b : option state) : option state :=
  match a with
  | Some _ => a
  | None => b
  end.

Definition set_cap (i : nat) (v : Str.t) (x : state) : state :=
  mkState (prev x) (rest x)
          ((i, v) :: filter (fun p => negb (fst p =? i)) (caps x)).

Definition get_cap (i : nat) (cs : list (nat * Str.t)) : option Str.t :=
  option_map snd (find (fun p => fst p =? i) cs).

(** The capturing groups of a pattern, in the order of their opening
    parentheses. *)
Fixpoint groups (r : regex) : list nat :=
  match r with
  | Seq a b | Alt a b => groups a ++ groups b
  | Rep _ _ _ a | NegLook a => groups a
  | Grp i a => i :: groups a
  | _ => []
  end.

Definition clear_caps (gs : list nat) (x : state) : state :=
  mkState (prev x) (rest x)
          (filter (fun p => negb (existsb (Nat.eqb (fst p)) gs)) (caps x)).

Definition dec_max (max : option nat) : option nat := option_map pred max.

Definition max_is_zero (max : option nat) : bool :=
  match max with
  | Some 0 => true
  | _ => false
  end.

Definition is_word_opt (o : option ascii) : bool :=
  match o with
  | Some c => Str.is_word c
  | None => false
  end.

Section Matcher.

(** The [m] flag. *)
Variable multiline : bool.

(** RepeatMatcher once [min] has reached 0: an iteration that consumes
    nothing is rejected, so every accepted iteration shortens the rest
    and [n], a bound on the length of the rest, is the recursion
    measure.  With [n = 0] nothing is left to consume. *)
Fixpoint star (body : matcher) (gs : list nat) (greedy : bool)
         (k : state -> option state)
         (n : nat) (max : option nat) (x : state) : option state :=
  if max_is_zero max then k x else
  match n with
  | 0 => k x
  | S n' =>
      let d := fun y =>
        if length (rest y) <? length (rest x)
        then star body gs greedy k n' (dec_max max) y
        else None in
      if greedy
      then orelse (body (clear_caps gs x) d) (k x)
      else orelse (k x) (body (clear_caps gs x) d)
  end.

(** RepeatMatcher while [min] is positive: the iteration is mandatory. *)
Fixpoint req (body : matcher) (gs : list nat) (greedy : bool)
         (k : state -> option state)
         (min : nat) (max : option nat) (x : state) : option state :=
  match min with
  | 0 => star body gs greedy k (length (rest x)) max x
  | S min' =>
      if max_is_zero max then k x else
      body (clear_caps gs x)
           (fun y => req body gs greedy k min' (dec_max max) y)
  end.

Definition single (p : ascii -> bool) : matcher :=
  fun x k =>
    match rest x with
    | c :: s => if p c then k (mkState (Some c) s (caps x)) else None
    | [] => None
    end.

Definition assert (b : state -> bool) : matcher :=
  fun x k => if b x then k x else None.

Definition at_word_boundary (x : state) : bool :=
  xorb (is_word_opt (prev x)) (is_word_opt (hd_error (rest x))).

Definition at_bol (x : state) : bool :=
  match prev x with
  | None => true
  | Some c => multiline && Str.is_line_terminator c
  end.

Definition at_eol (x : state) : bool :=
  match rest x with
  | [] => true
  | c :: _ => multiline && Str.is_line_terminator c
  end.

Fixpoint m (r : regex) : matcher :=
  match r with
  | Eps => fun x k => k x
  | Chr c => single (Ascii.eqb c)
  | Dot => single (fun c => negb (Str.is_line_terminator c))
  | Cls neg items => single (cls_mem neg items)
  | Seq r1 r2 => fun x k => m r1 x (fun y => m r2 y k)
  | Alt r1 r2 => fun x k => orelse (m r1 x k) (m r2 x k)
  | Rep greedy min max r' =>
      fun x k => req (m r') (groups r') greedy k min max x
  | Grp i r' =>
      fun x k =>
        m r' x (fun y =>
          k (set_cap i (firstn (length (rest x) - length (rest y)) (rest x)) y))
  | NegLook r' =>
      fun x k =>
        match m r' x (fun y => Some y) with
        | Some _ => None
        | None => k x
        end
  | WordB => assert at_word_boundary
  | Bol => assert at_bol
  | Eol => assert at_eol
  end.

(** One attempt at a fixed position (RegExpBuiltinExec at [lastIndex]):
    the number of code units matched and the captures. *)
Definition exec (r : regex) (p : option ascii) (s : Str.t)
  : option (nat * list (nat * Str.t)) :=
  match m r (mkState p s []) (fun y => Some y) with
  | Some y => Some (length s - length (rest y), caps y)
  | None => None
  end.

End Matcher.

(** What a replacement sees of a match: the matched text and the
    captures. *)
Record found := mkFound {
  matched : Str.t;
  captures : list (nat * Str.t)
}.

(** An undefined capture reads as the empty string in a template. *)
Definition cap (i : nat) (f : found) : Str.t :=
  match get_cap i (captures f) with
  | Some v => v
  | None => []
  end.

Section Replace.

Variable T : Type.
Variable multiline : bool.
Variable r : regex.
(** The replacer: a callback that may update the state [T] it closes
    over, and returns the text to insert. *)
Variable cb : T -> found -> T * Str.t.

(** [String.prototype.replace] with a [g] pattern: the matches are
    looked for from left to right on the original text, the search
    resuming where the previous match ended, or one code unit later
    when that match was empty.  [skip] counts the code units of the
    current match still to pass over. *)
Fixpoint replace_go (skip : nat) (t : T) (p : option ascii) (s : Str.t)
  : T * Str.t :=
  match skip with
  | S j =>
      match s with
      | [] => (t, [])
      | c :: s' => replace_go j t (Some c) s'
      end
  | 0 =>
      match exec multiline r p s with
      | Some (n, cs) =>
          let (t1, ins) := cb t (mkFound (firstn n s) cs) in
          match s with
          | [] => (t1, ins)
          | c :: s' =>
              match n with
              | 0 => let (t2, out) := replace_go 0 t1 (Some c) s' in
                     (t2, ins ++ c :: out)
              | S j => let (t2, out) := replace_go j t1 (Some c) s' in
                       (t2, ins ++ out)
              end
          end
      | None =>
          match s with
          | [] => (t, [])
          | c :: s' => let (t2, out) := replace_go 0 t (Some c) s' in
                       (t2, c :: out)
          end
      end
  end.

Definition replace_with (t : T) (s : Str.t) : T * Str.t :=
  replace_go 0 t None s.

End Replace.

(** GetSubstitution for a replacement string: [$$] is a dollar sign,
    [$&] the match, [$n] with [1 <= n <= 9] the n-th capture when the
    pattern has that many groups; any other [$] stands for itself.  (No
    replacement string of the source uses the prefix, suffix, two-digit
    or named forms.) *)
Fixpoint substitute (ngroups : nat) (tpl : Str.t) (f : found) : Str.t :=
  match tpl with
  | [] => []
  | c :: tl =>
      if Ascii.eqb c "$"%char then
        match tl with
        | d :: tl' =>
            if Ascii.eqb d "$"%char then "$"%char :: substitute ngroups tl' f
            else if Ascii.eqb d "&"%char then matched f ++ substitute ngroups tl' f
            else if Str.in_range 49 57 d
                    && (Str.code d - 48 <=? ngroups)
                 then cap (Str.code d - 48) f ++ substitute ngroups tl' f
                 else c :: substitute ngroups tl f
        | [] => [c]
        end
      else c :: substitute ngroups tl f
  end.

(** [text.replace(/r/g, "template")] *)
Definition replace (multiline : bool) (r : regex) (tpl : Str.t) (s : Str.t)
  : Str.t :=
  snd (replace_with multiline r
         (fun (t : unit) f => (t, substitute (length (groups r)) tpl f)) tt s).

(** [r] matches at no position of [s], whose first code unit follows
    [p]. *)
Fixpoint matches_nowhere (multiline : bool) (r : regex) (p : option ascii)
         (s : Str.t) : bool :=
  match exec multiline r p s with
  | Some _ => false
  | None =>
      match s with
      | [] => true
      | c :: s' => matches_nowhere multiline r (Some c) s'
      end
  end.

(** *** Notation for patterns *)

Fixpoint lit (s : Str.t) : regex :=
  match s with
  | [] => Eps
  | [c] => Chr c
  | c :: s' => Seq (Chr c) (lit s')
  end.

Fixpoint seq (rs : list regex) : regex :=
  match rs with
  | [] => Eps
  | [a] => a
  | a :: rs' => Seq a (seq rs')
  end.

Fixpoint alt (rs : list regex) : regex :=
  match rs with
  | [] => Eps
  | [a] => a
  | a :: rs' => Alt a (alt rs')
  end.

Definition many := Rep true 0 None.        (* r*  *)
Definition many_lazy := Rep false 0 None.  (* r*? *)
Definition some := Rep true 1 None.        (* r+  *)
Definition some_lazy := Rep false 1 None.  (* r+? *)
Definition opt := Rep true 0 (Some 1).     (* r?  *)
Definition at_least (n : nat) := Rep true n None. (* r{n,} *)

Definition space := Cls false [ISpace].    (* \s *)
Definition digit := Cls false [IDigit].    (* \d *)
Definition word := Cls false [IWord].      (* \w *)
Definition anything := Cls false [ISpace; INotSpace].  (* [\s\S] *)
Definition one_of (s : string) := Cls false (map IChar (str s)).
Definition none_of (s : string) := Cls true (map IChar (str s)).
Definition text (s : string) := lit (str s).

End Re.

(* ------------------------------------------------------------------ *)
(** ** The text normalizer: [preprocessText]

    Each pattern is quoted from the source above its definition; in the
    quotations a space separates a star from a closing parenthesis that
    follows it. *)

Module Normalizer.

Import Re.

Definition LF : ascii := "010"%char.
Definition CR : ascii := "013"%char.
Definition backslash : ascii := "\"%char.

(** The argument of [preprocessText]: [msg.content] may be missing. *)
Inductive jsval :=
| Undefined
| JString (s : Str.t).

(** [latexPlaceholders] *)
Definition table := list Str.t.

(** The decimal numeral of [n], as a template literal prints a number. *)
Definition decimal (n : nat) : Str.t :=
  str (NilEmpty.string_of_uint (Nat.to_uint n)).

(** [`__LATEX_${n}__`] *)
Definition token (n : nat) : Str.t :=
  str "__LATEX_" ++ decimal n ++ str "__".

(** [latexPlaceholders.push(v); return `${pre}__LATEX_${latexPlaceholders.length - 1}__`] *)
Definition protect (pre : Str.t) (v : Str.t) (tbl : table) : table * Str.t :=
  (tbl ++ [v], pre ++ token (length (tbl ++ [v]) - 1)).

(** [latexPlaceholders[index]] for the captured text [index]: an array
    has the property [index] only when [index] is the canonical numeral
    of a position below its length; the missing property reads
    [undefined], which [replace] inserts as the text "undefined". *)
Definition lookup (tbl : table) (index : Str.t) : Str.t :=
  match NilEmpty.uint_of_string (string_of_list_ascii index) with
  | Some u =>
      let n := Nat.of_uint u in
      if Str.eqb (decimal n) index
      then nth n tbl (str "undefined")
      else str "undefined"
  | None => str "undefined"
  end.

(** The math spans [\$\$[\s\S]*?\$\$|\$[^\$]*?\$]. *)
Definition math_span : regex :=
  Alt (seq [text "$$"; many_lazy anything; text "$$"])
      (seq [Chr "$"; many_lazy (none_of "$"); Chr "$"]).

(** [__LATEX_\d+__] *)
Definition token_shape : regex :=
  seq [text "__LATEX_"; some digit; text "__"].

(** [{[^{}]*}] *)
Definition brace_group : regex :=
  seq [Chr "{"; many (none_of "{}"); Chr "}"].

(** Step 1, first pattern: "/\b(\w)\s+(\w)\s+(\w)\b/g" *)
Definition re_spaced : regex :=
  seq [WordB; Grp 1 word; some space; Grp 2 word; some space; Grp 3 word;
       WordB].

(** Step 1, second pattern: "/,\s*(then|so)\b/g" *)
Definition re_comma : regex :=
  seq [Chr ","; many space; Grp 1 (alt [text "then"; text "so"]); WordB].

(** Step 2: "/\r\n|\r/g" *)
Definition re_eol : regex := Alt (Seq (Chr CR) (Chr LF)) (Chr CR).

(** Step 3: "/(\$\$[\s\S]*?\$\$|\$[^\$]*?\$)/g" *)
Definition re_math : regex := Grp 1 math_span.

(** Step 4: "/=\s*([^\$]*?)\$\$/g" *)
Definition re_malformed : regex :=
  seq [Chr "="; many space; Grp 1 (many_lazy (none_of "$")); text "$$"].

(** Step 5: "/\\(frac|int|pi|psi|le|ge)\b(?:{[^{}]*})?(?:{[^{}]*})?/g" *)
Definition re_command : regex :=
  seq [Chr backslash;
       Grp 1 (alt [text "frac"; text "int"; text "pi"; text "psi";
                   text "le"; text "ge"]);
       WordB; opt brace_group; opt brace_group].

(** Step 6: "/\b(u|du|dx)\s*\\frac\{([^}]* )\}\{([^}]* )\}/g" *)
Definition re_quantum : regex :=
  seq [WordB; Grp 1 (alt [text "u"; text "du"; text "dx"]); many space;
       Chr backslash; text "frac{"; Grp 2 (many (none_of "}")); text "}{";
       Grp 3 (many (none_of "}")); Chr "}"].

(** Step 7, first pattern: "/(\*\*[^\*]+?)(:|\?)\s*(\*\* )/g" *)
Definition re_bold : regex :=
  seq [Grp 1 (seq [text "**"; some_lazy (none_of "*")]);
       Grp 2 (Alt (Chr ":") (Chr "?")); many space; Grp 3 (text "**")].

(** Step 7, second pattern: "/([^\n])\n(?!\n|[*+]\s|\d+\.\s|#)/g" *)
Definition re_join1 : regex :=
  seq [Grp 1 (Cls true [IChar LF]); Chr LF;
       NegLook (alt [Chr LF;
                     seq [one_of "*+"; space];
                     seq [some digit; Chr "."; space];
                     Chr "#"])].

(** Step 8: "/(:)\s*(\$\$[\s\S]*?\$\$|\$[^\$]*?\$)/g" *)
Definition re_colon_math : regex :=
  seq [Grp 1 (Chr ":"); many space; Grp 2 math_span].

(** Step 9: "/(https?:\/\/[^\s<]*?)\s*([.:])\s*/g" *)
Definition re_url : regex :=
  seq [Grp 1 (seq [text "http"; opt (Chr "s"); text "://";
                   many_lazy (Cls true [ISpace; IChar "<"])]);
       many space; Grp 2 (one_of ".:"); many space].

(** Steps 10 and 18: "/\n{3,}/g" *)
Definition re_blank : regex := at_least 3 (Chr LF).

(** Step 11:
    "/([^\n])\n(?!\n|[-*+]\s*(__LATEX_\d+__)?|\d+\.\s|#|\s*__LATEX_\d+__|\b(Let|When|Therefore|If|Then)\b|[.,:;]$)/g" *)
Definition re_join2 : regex :=
  seq [Grp 1 (Cls true [IChar LF]); Chr LF;
       NegLook (alt [Chr LF;
                     seq [one_of "-*+"; many space; opt (Grp 2 token_shape)];
                     seq [some digit; Chr "."; space];
                     Chr "#";
                     seq [many space; token_shape];
                     seq [WordB;
                          Grp 3 (alt [text "Let"; text "When";
                                      text "Therefore"; text "If";
                                      text "Then"]);
                          WordB];
                     seq [one_of ".,:;"; Eol]])].

(** Step 13, first pattern: "/^(#+.* )$/gm" *)
Definition re_heading : regex :=
  seq [Bol; Grp 1 (seq [some (Chr "#"); many Dot]); Eol].

(** Step 13, second pattern: "/([-*+]\s.* )\n\n(?![-*+\d])/g" *)
Definition re_list : regex :=
  seq [Grp 1 (seq [one_of "-*+"; space; many Dot]); Chr LF; Chr LF;
       NegLook (Cls false [IChar "-"; IChar "*"; IChar "+"; IDigit])].

(** Step 14: "/Dividing by \$A e\^\{i\(kx \\omega t\)\}\$:/g" and
    "/Dividing by \$A e\^\{i\(kx - \\omega t\)\}\$:/g" *)
Definition re_phrase1 : regex :=
  Seq (text "Dividing by $A e^{i(kx ")
      (Seq (Chr backslash) (text "omega t)}$:")).
Definition re_phrase2 : regex :=
  Seq (text "Dividing by $A e^{i(kx - ")
      (Seq (Chr backslash) (text "omega t)}$:")).

(** ["**Dividing by $A e^{i(kx - \\omega t)}$:**"] *)
Definition phrase_bold : Str.t :=
  str "**Dividing by $A e^{i(kx - " ++ [backslash] ++ str "omega t)}$:**".

(** Step 15: "/__LATEX_(\d+)__/g" *)
Definition re_token : regex :=
  seq [text "__LATEX_"; Grp 1 (some digit); text "__"].

(** [\$[^\$]+\$] *)
Definition inline_span : regex :=
  seq [Chr "$"; some (none_of "$"); Chr "$"].

(** Step 16: "/(\$[^\$]+\$)\s*([^\s\$])/g" and "/([^\s\$])\s*(\$[^\$]+\$)/g" *)
Definition re_space_after : regex :=
  seq [Grp 1 inline_span; many space; Grp 2 (Cls true [ISpace; IChar "$"])].
Definition re_space_before : regex :=
  seq [Grp 1 (Cls true [ISpace; IChar "$"]); many space; Grp 2 inline_span].

(** Step 17: "/^(\$\$.*\$\$)$/gm" *)
Definition re_display : regex :=
  seq [Bol; Grp 1 (seq [text "$$"; many Dot; text "$$"]); Eol].

(** The replacer callbacks of steps 3 to 6 and 9. *)
Definition cb_math (tbl : table) (f : found) : table * Str.t :=
  protect [] (matched f) tbl.
Definition cb_malformed (tbl : table) (f : found) : table * Str.t :=
  protect (str "= ") (str "$" ++ cap 1 f ++ str "$") tbl.
Definition cb_command (tbl : table) (f : found) : table * Str.t :=
  protect [] (str "$" ++ matched f ++ str "$") tbl.
Definition cb_quantum (tbl : table) (f : found) : table * Str.t :=
  protect []
    (str "$" ++ cap 1 f ++ str " " ++ [backslash] ++ str "frac{" ++ cap 2 f
       ++ str "}{" ++ cap 3 f ++ str "}$") tbl.
Definition cb_url (u : unit) (f : found) : unit * Str.t :=
  (u, cap 1 f ++ cap 2 f).
Definition cb_restore (tbl : table) (f : found) : table * Str.t :=
  (tbl, lookup tbl (cap 1 f)).

(** Steps 1 and 2 of the specification (step 1 of the source). *)
Definition defragment (t : Str.t) : Str.t :=
  replace false re_spaced (str "$1$2$3") t.
Definition comma_cleanup (t : Str.t) : Str.t :=
  replace false re_comma (str "$1") t.

(** Steps 3 to 6 of the source: the passes that fill the table. *)
Definition protect_all (t : Str.t) : table * Str.t :=
  let (tbl, t) := replace_with false re_math cb_math [] t in
  let (tbl, t) := replace_with false re_malformed cb_malformed tbl t in
  let (tbl, t) := replace_with false re_command cb_command tbl t in
  replace_with false re_quantum cb_quantum tbl t.

(** Steps 7 to 14 of the source, on the text with its tokens. *)
Definition format (t : Str.t) : Str.t :=
  let t := replace false re_bold (str "$1$2$3") t in
  let t := replace false re_join1 (str "$1 ") t in
  let t := replace false re_colon_math (str "$1" ++ [LF] ++ str "$2") t in
  let t := snd (replace_with false re_url cb_url tt t) in
  let t := replace false re_blank [LF; LF] t in
  let t := replace false re_join2 (str "$1 ") t in
  let t := Str.trim t in
  let t := replace true re_heading ([LF; LF] ++ str "$1" ++ [LF; LF]) t in
  let t := replace false re_list (str "$1" ++ [LF; LF; LF]) t in
  let t := replace false re_phrase1 phrase_bold t in
  replace false re_phrase2 phrase_bold t.

(** Step 15 of the source. *)
Definition restore (tbl : table) (t : Str.t) : Str.t :=
  snd (replace_with false re_token cb_restore tbl t).

(** Steps 16 to 18 of the source. *)
Definition finish (t : Str.t) : Str.t :=
  let t := replace false re_space_after (str "$1 $2") t in
  let t := replace false re_space_before (str "$1 $2") t in
  let t := replace true re_display ([LF] ++ str "$1" ++ [LF]) t in
  replace false re_blank [LF; LF] t.

Definition normalize (t : Str.t) : Str.t :=
  let t := comma_cleanup (defragment t) in
  let t := replace false re_eol [LF] t in
  let (tbl, t) := protect_all t in
  finish (restore tbl (format t)).

Definition preprocessText (v : jsval) : Str.t :=
  match v with
  | Undefined => []
  | JString [] => []
  | JString t => normalize t
  end.

End Normalizer.

(* ------------------------------------------------------------------ *)
(** ** The read loop of [handleSendMessage] *)

Module Stream.

Import Normalizer.

Definition marker : Str.t := str "data:".
Definition sentinel : Str.t := str "[DONE]".
Definition boundary : Str.t := [LF; LF].

(** [trimmed.slice(5).trim()] *)
Definition data_of (trimmed : Str.t) : Str.t :=
  Str.trim (Str.slice 5 trimmed).

(** The body of [for (const part of parts)] up to its two [continue]s:
    the payload a frame contributes, if any. *)
Definition payload (part : Str.t) : option Str.t :=
  let trimmed := Str.trim part in
  if negb (Str.startsWith marker trimmed) then None
  else
    let data := data_of trimmed in
    if Str.eqb data sentinel then None else Some data.

(** The variables of the loop.  [rendered] is the trace of the contents
    handed to the assistant message by the [setMessages] calls, oldest
    first; each updater is taken to run when it is queued. *)
Record decoder := mkDecoder {
  buffer : Str.t;
  accumulatedContent : Str.t;
  rendered : list Str.t
}.

Definition start : decoder := mkDecoder [] [] [].

Definition process_part (st : decoder) (part : Str.t) : decoder :=
  match payload part with
  | None => st
  | Some data =>
      let acc := accumulatedContent st ++ data ++ [LF] in
      mkDecoder (buffer st) acc
                (rendered st ++ [preprocessText (JString acc)])
  end.

(** One turn of [while (true)] for a decoded chunk. *)
Definition feed (st : decoder) (chunk : Str.t) : decoder :=
  let parts := Str.split boundary (buffer st ++ chunk) in
  fold_left process_part (removelast parts)
            (mkDecoder (last parts []) (accumulatedContent st) (rendered st)).

(** The loop until the reader reports [done], and the [setMessages] call
    that follows it. *)
Definition read_all (chunks : list Str.t) : decoder :=
  let st := fold_left feed chunks start in
  mkDecoder (buffer st) (accumulatedContent st)
            (rendered st ++ [preprocessText (JString (accumulatedContent st))]).

(** The payloads of a list of frames, in order. *)
Fixpoint payloads (parts : list Str.t) : list Str.t :=
  match parts with
  | [] => []
  | p :: ps =>
      match payload p with
      | Some d => d :: payloads ps
      | None => payloads ps
      end
  end.

(** The payloads a sequence of chunks delivers to a loop whose residual
    buffer is [buf]. *)
Fixpoint received (buf : Str.t) (chunks : list Str.t) : list Str.t :=
  match chunks with
  | [] => []
  | c :: cs =>
      let parts := Str.split boundary (buf ++ c) in
      payloads (removelast parts) ++ received (last parts []) cs
  end.

(** Each payload followed by one line feed. *)
Definition lines (ds : list Str.t) : Str.t :=
  concat (map (fun d => d ++ [LF]) ds).

(** The non-empty prefixes of a list, shortest first. *)
Fixpoint prefixes (A : Type) (l : list A) : list (list A) :=
  match l with
  | [] => []
  | a :: l' => [a] :: map (cons a) (prefixes l')
  end.

End Stream.

(* ------------------------------------------------------------------ *)
(** ** The conversation and [handleCancel] *)

Module Conversation.

Record message := mkMessage {
  role : Str.t;
  content : Str.t;
  is_web_search : bool;
  timestamp : Str.t
}.

(** Message objects live in a store; the [messages] array holds
    references to them, so that an assignment to a field of one object is
    seen through every array that holds it. *)
Definition ref := nat.
Definition store := ref -> option message.

Definition update (h : store) (l : ref) (v : message) : store :=
  fun l' => if l' =? l then Some v else h l'.

Record chat := mkChat {
  objects : store;
  messages : list ref;
  isLoading : bool;
  (** whether [abortControllerRef.current] holds a controller *)
  inflight : bool
}.

(** The messages of an array, read through the store. *)
Definition view (h : store) (arr : list ref) : list (option message) :=
  map h arr.

Definition cancelled_marker : Str.t :=
  [Normalizer.LF; Normalizer.LF] ++ str "[Generation cancelled]".

(** The updater given to [setMessages] by [handleCancel]:
    [newMessages] is a fresh array of the same objects, [pop] shortens
    that array, [last.content += ...] assigns to the object. *)
Definition cancel_messages (h : store) (prev : list ref) : store * list ref :=
  let newMessages := prev in
  match last (map Some newMessages) None with
  | None => (h, newMessages)
  | Some l =>
      match h l with
      | None => (h, newMessages)
      | Some lastm =>
          if Str.eqb (role lastm) (str "assistant") then
            if Str.eqb (Str.trim (content lastm)) [] then
              (h, removelast newMessages)
            else
              (update h l (mkMessage (role lastm)
                                     (content lastm ++ cancelled_marker)
                                     (is_web_search lastm)
                                     (timestamp lastm)),
               newMessages)
          else (h, newMessages)
      end
  end.

Definition handleCancel (c : chat) : chat :=
  let (h, msgs) := cancel_messages (objects c) (messages c) in
  mkChat h msgs false false.

End Conversation.

(* ------------------------------------------------------------------ *)
(** ** Which code units a pattern cannot match without *)

Module Needs.

Import Re.

Definition all_ascii : list ascii := map ascii_of_nat (List.seq 0 256).

Section Needs.

(** The code units of interest. *)
Variable P : ascii -> bool.

Definition within (p : ascii -> bool) : bool :=
  forallb (fun c => implb (p c) (P c)) all_ascii.

(** [needs r]: every match of [r] consumes a code unit of [P]. *)
Fixpoint needs (r : regex) : bool :=
  match r with
  | Chr c => P c
  | Dot => within (fun c => negb (Str.is_line_terminator c))
  | Cls neg items => within (cls_mem neg items)
  | Seq a b => needs a || needs b
  | Alt a b => needs a && needs b
  | Rep _ min max a => (0 <? min) && negb (max_is_zero max) && needs a
  | Grp _ a => needs a
  | _ => false
  end.

(** A text free of [P]. *)
Definition clean (s : Str.t) : Prop := Forall (fun c => P c = false) s.

Definition cleanb (s : Str.t) : bool := forallb (fun c => negb (P c)) s.

End Needs.

End Needs.

(* ------------------------------------------------------------------ *)
(** ** More on strings *)

Module Text.

(** [Array.prototype.join] on an array of strings *)
Fixpoint join (sep : Str.t) (l : list Str.t) : Str.t :=
  match l with
  | [] => []
  | [a] => a
  | a :: l' => a ++ sep ++ join sep l'
  end.

(** Whether [sep] occurs somewhere in [s]. *)
Fixpoint occurs (sep s : Str.t) : bool :=
  Str.startsWith sep s ||
  match s with
  | [] => false
  | _ :: s' => occurs sep s'
  end.

(** [String.prototype.substring(0, n)] *)
Definition substring0 (n : nat) (s : Str.t) : Str.t := firstn n s.

End Text.

(* ------------------------------------------------------------------ *)
(** ** The chat component around the read loop *)

Module Chat.

Import Normalizer Conversation.

(** [generateChatTitle]: the first six pieces of the trimmed message
    between spaces, cut to forty code units and three dots when
    longer. *)
Definition generateChatTitle (firstMessage : Str.t) : Str.t :=
  let words :=
    Text.join (str " ")
              (firstn 6 (Str.split (str " ") (Str.trim firstMessage))) in
  if 40 <? length words
  then Text.substring0 40 words ++ str "..."
  else words.

(** The state of the component that the handlers read and set. *)
Record state := mkState {
  message : Str.t;                 (* the input box *)
  objects : store;
  messages : list ref;
  sessionId : option Str.t;        (* [null] or an id *)
  isWebSearch : bool;
  isLoading : bool;
  chatTitle : Str.t;
  sessions : list Str.t;           (* the [session_id] of each entry *)
  controller : bool                (* [abortControllerRef.current] is set *)
}.

(** [!s] for a string or [null] *)
Definition falsy (o : option Str.t) : bool :=
  match o with
  | None | Some [] => true
  | Some (_ :: _) => false
  end.

(** The request [handleSendMessage] makes: the path after [API_BASE] and
    the two fields of the JSON body. *)
Record request := mkRequest {
  endpoint : Str.t;
  body_message : Str.t;
  body_session_id : Str.t
}.

(** [handleSendMessage] up to its [fetch].  [fresh_id] is what
    [generateSessionId()] returns, [now] the time stamp, [l] the
    reference of the user message object that is created. *)
Definition handleSendMessage (fresh_id now : Str.t) (l : ref) (c : state)
  : state * option request :=
  let rawMessage := message c in
  let cleanedMessage := preprocessText (JString rawMessage) in
  if falsy (Some cleanedMessage) || isLoading c then (c, None)
  else
    let created := falsy (sessionId c) in
    let currentSessionId :=
      match sessionId c with
      | Some (a :: id) => a :: id
      | _ => fresh_id
      end in
    let endpoint :=
      if isWebSearch c then str "/web_search"
      else str "/chat/" ++ currentSessionId in
    let userMessage :=
      mkMessage (str "user") cleanedMessage (isWebSearch c) now in
    (mkState []
             (update (objects c) l userMessage)
             (messages c ++ [l])
             (Some currentSessionId)
             (isWebSearch c)
             true
             (if created then generateChatTitle cleanedMessage else chatTitle c)
             (sessions c)
             true,
     Some (mkRequest endpoint cleanedMessage currentSessionId)).

(** The updater given to [setMessages] for each payload and at the end
    of the stream: a new array whose last element is a new object, copy
    of the last message with the content replaced; [None] stands for the
    [TypeError] of [last.role] on an empty array.  [l'] is the reference
    of the new object. *)
Definition set_content (l' : ref) (text : Str.t) (h : store) (prev : list ref)
  : option (store * list ref) :=
  match last (map Some prev) None with
  | None => None
  | Some l =>
      match h l with
      | None => None
      | Some lastm =>
          if Str.eqb (role lastm) (str "assistant") then
            Some (update h l' (mkMessage (role lastm) text
                                         (is_web_search lastm)
                                         (timestamp lastm)),
                  removelast prev ++ [l'])
          else Some (h, prev)
      end
  end.

(** The updaters of one stream, run in order, each with its own new
    object. *)
Fixpoint set_contents (fresh : list ref) (texts : list Str.t)
         (h : store) (msgs : list ref) {struct texts}
  : option (store * list ref) :=
  match texts, fresh with
  | [], _ => Some (h, msgs)
  | _ :: _, [] => None
  | text :: texts', l' :: fresh' =>
      match set_content l' text h msgs with
      | Some (h', msgs') => set_contents fresh' texts' h' msgs'
      | None => None
      end
  end.

(** What the conversation shows for a message: the children of
    [ReactMarkdown] are [preprocessText(msg.content)]. *)
Definition displayed (m : Conversation.message) : Str.t :=
  preprocessText (JString (content m)).

End Chat.

(* ------------------------------------------------------------------ *)
(** ** The stored conversation as HTML: [SessionDetail] *)

Module SessionDetail.

Import Re.

Definition LF : ascii := Normalizer.LF.

(** The double quote. *)
Definition dq : ascii := "034"%char.

(** The pattern of a fenced block: three backquotes, anything, three
    backquotes, the inside captured, as few code units as possible. *)
Definition re_fence : regex :=
  seq [text "```"; Grp 1 (many_lazy anything); text "```"].

(** "/(https?:\/\/[^\s]+)/g" *)
Definition re_link : regex :=
  Grp 1 (seq [text "http"; opt (Chr "s"); text "://";
              some (Cls true [ISpace])]).

(** The replacement strings of the fenced block and of the link, with
    their double quotes. *)
Definition pre_template : Str.t :=
  str "<pre class=" ++ [dq]
  ++ str "bg-gray-100 p-3 rounded-md my-2 overflow-x-auto text-sm" ++ [dq]
  ++ str "><code>$1</code></pre>".

Definition link_template : Str.t :=
  str "<a href=" ++ [dq] ++ str "$1" ++ [dq]
  ++ str " target=" ++ [dq] ++ str "_blank" ++ [dq]
  ++ str " rel=" ++ [dq] ++ str "noopener" ++ [dq]
  ++ str " class=" ++ [dq] ++ str "text-blue-600 hover:underline break-all"
  ++ [dq] ++ str ">$1</a>".

(** The first three replacements: "/&/g", "/</g" and "/>/g". *)
Definition escape (content : Str.t) : Str.t :=
  replace false (Chr ">") (str "&gt;")
    (replace false (Chr "<") (str "&lt;")
       (replace false (Chr "&") (str "&amp;") content)).

(** The value given to [dangerouslySetInnerHTML]. *)
Definition to_html (content : Str.t) : Str.t :=
  replace false (Chr LF) (str "<br />")
    (replace false re_link link_template
       (replace false re_fence pre_template (escape content))).

(** What one code unit of the content becomes when it is escaped. *)
Definition entity (c : ascii) : Str.t :=
  if Ascii.eqb "&" c then str "&amp;"
  else if Ascii.eqb "<" c then str "&lt;"
  else if Ascii.eqb ">" c then str "&gt;"
  else [c].

End SessionDetail.

(* ------------------------------------------------------------------ *)
(** * Properties *)

Module StrFacts.

Import Str.

Lemma eqb_eq (a b : t) : eqb a b = true <-> a = b.
Proof.
  unfold eqb. rewrite String.eqb_eq. split; intro H.
  - rewrite <- (list_ascii_of_string_of_list_ascii a),
            <- (list_ascii_of_string_of_list_ascii b).
    now rewrite H.
  - now rewrite H.
Qed.

Lemma eqb_refl (a : t) : eqb a a = true.
Proof. now apply eqb_eq. Qed.

Lemma eqb_neq (a b : t) : eqb a b = false <-> a <> b.
Proof.
  split.
  - intros H E. apply eqb_eq in E. congruence.
  - intro H. destruct (eqb a b) eqn:E; [apply eqb_eq in E; contradiction | reflexivity].
Qed.

Lemma trimStart_head (c : ascii) (s : t) :
  is_space c = false -> trimStart (c :: s) = c :: s.
Proof. intro H. simpl. now rewrite H. Qed.

(** A text without white space is its own trim. *)
Lemma trim_no_space (s : t) :
  Forall (fun c => is_space c = false) s -> trim s = s.
Proof.
  intro H. unfold trim, trimEnd.
  assert (E1 : trimStart s = s).
  { destruct H as [|c s Hc _]; [reflexivity | now apply trimStart_head]. }
  rewrite E1.
  assert (E2 : trimStart (rev s) = rev s).
  { apply Forall_rev in H. destruct H as [|c s' Hc _]; [reflexivity|].
    now apply trimStart_head. }
  rewrite E2. apply rev_involutive.
Qed.

End StrFacts.

Module ReFacts.

Import Re Needs.

Lemma in_all_ascii (c : ascii) : In c all_ascii.
Proof.
  unfold all_ascii. apply in_map_iff. exists (nat_of_ascii c). split.
  - apply ascii_nat_embedding.
  - apply in_seq. pose proof (nat_ascii_bounded c). lia.
Qed.

Lemma within_spec (P p : ascii -> bool) :
  within P p = true -> forall c, p c = true -> P c = true.
Proof.
  unfold within. rewrite forallb_forall. intros H c Hc.
  specialize (H c (in_all_ascii c)). now rewrite Hc in H.
Qed.

Section Blocked.

Variable P : ascii -> bool.
(** A property of the rest of the input that holds of every tail once it
    holds, and that no text starting with a code unit of [P] has. *)
Variable I : Str.t -> Prop.
Hypothesis I_tail : forall c s, I (c :: s) -> I s.
Hypothesis I_head : forall c s, I (c :: s) -> P c = false.
Variable ml : bool.

(** A continuation that fails wherever the rest has the property. *)
Definition dead (k : state -> option state) : Prop :=
  forall y, I (rest y) -> k y = None.

Definition blocked (body : matcher) (nb : bool) : Prop :=
  forall x k, I (rest x) -> nb = true \/ dead k -> body x k = None.

Lemma single_blocked (p : ascii -> bool) :
  blocked (single p) (within P p).
Proof.
  intros x k Hx H. unfold single. destruct x as [pv [|c s] cs]; simpl in *.
  - reflexivity.
  - destruct (p c) eqn:Epc; [|reflexivity].
    destruct H as [H|H].
    + pose proof (within_spec _ _ H c Epc). pose proof (I_head Hx). congruence.
    + apply H. simpl. now apply I_tail with c.
Qed.

Lemma star_dead (body : matcher) (nb : bool) gs greedy k :
  blocked body nb -> dead k ->
  forall n max x, I (rest x) -> star body gs greedy k n max x = None.
Proof.
  intros Hb Hk. induction n as [|n IH]; intros max x Hx; simpl.
  - destruct (max_is_zero max); now apply Hk.
  - destruct (max_is_zero max); [now apply Hk|].
    assert (Hd : body (clear_caps gs x)
                   (fun y => if length (rest y) <? length (rest x)
                             then star body gs greedy k n (dec_max max) y
                             else None) = None).
    { apply Hb; [exact Hx|]. right. intros y Hy.
      destruct (length (rest y) <? length (rest x)); [now apply IH | reflexivity]. }
    rewrite Hd, (Hk x Hx). now destruct greedy.
Qed.

Lemma req_dead (body : matcher) (nb : bool) gs greedy k :
  blocked body nb -> dead k ->
  forall min max x, I (rest x) -> req body gs greedy k min max x = None.
Proof.
  intros Hb Hk. induction min as [|min IH]; intros max x Hx; simpl.
  - eapply star_dead; eassumption.
  - destruct (max_is_zero max); [now apply Hk|].
    apply Hb; [exact Hx|]. right. intros y Hy. now apply IH.
Qed.

Lemma m_blocked (r : regex) : blocked (m ml r) (needs P r).
Proof.
  induction r as [ | c | | neg items | r1 IH1 r2 IH2 | r1 IH1 r2 IH2
                 | greedy min max r IH | i r IH | r IH | | | ];
    intros x k Hx H; simpl in *.
  - destruct H as [H|H]; [discriminate | now apply H].
  - apply (@single_blocked (Ascii.eqb c)); [exact Hx|].
    destruct H as [H|H]; [left | now right].
    unfold within. apply forallb_forall. intros d _.
    destruct (Ascii.eqb c d) eqn:E; [|reflexivity].
    apply Ascii.eqb_eq in E. subst d. now rewrite H.
  - now apply single_blocked.
  - now apply single_blocked.
  - destruct H as [H|H].
    + apply orb_true_iff in H. destruct H as [H|H].
      * apply IH1; [exact Hx | now left].
      * apply IH1; [exact Hx | right]. intros y Hy. apply IH2; [exact Hy | now left].
    + apply IH1; [exact Hx | right]. intros y Hy. apply IH2; [exact Hy | now right].
  - destruct H as [H|H].
    + apply andb_true_iff in H. destruct H as [H1 H2].
      rewrite IH1, IH2; auto.
    + rewrite IH1, IH2; auto.
  - destruct H as [H|H].
    + apply andb_true_iff in H. destruct H as [H H3].
      apply andb_true_iff in H. destruct H as [H1 H2].
      destruct min as [|min]; [discriminate|]. simpl.
      apply negb_true_iff in H2. rewrite H2.
      apply IH; [exact Hx | now left].
    + eapply req_dead; eassumption.
  - apply IH; [exact Hx|]. destruct H as [H|H]; [now left | right].
    intros y Hy. now apply H.
  - destruct H as [H|H]; [discriminate|].
    rewrite (H x Hx). now destruct (m ml r x _).
  - destruct H as [H|H]; [discriminate|]. unfold assert.
    rewrite (H x Hx). now destruct (at_word_boundary x).
  - destruct H as [H|H]; [discriminate|]. unfold assert.
    rewrite (H x Hx). now destruct (at_bol ml x).
  - destruct H as [H|H]; [discriminate|]. unfold assert.
    rewrite (H x Hx). now destruct (at_eol ml x).
Qed.

End Blocked.

Section Clean.

Variable P : ascii -> bool.
Variable ml : bool.

Lemma clean_tail (c : ascii) (s : Str.t) : clean P (c :: s) -> clean P s.
Proof. intro H. now inversion H. Qed.

Lemma clean_head (c : ascii) (s : Str.t) : clean P (c :: s) -> P c = false.
Proof. intro H. now inversion H. Qed.

Lemma m_clean (r : regex) : blocked (clean P) (m ml r) (needs P r).
Proof. apply m_blocked; [apply clean_tail | apply clean_head]. Qed.

(** A pattern that needs [P] matches nowhere in a text free of [P]. *)
Lemma exec_clean (r : regex) (p : option ascii) (s : Str.t) :
  needs P r = true -> clean P s -> exec ml r p s = None.
Proof.
  intros Hn Hs. unfold exec. rewrite m_clean; auto.
Qed.

Lemma replace_go_clean (T : Type) (r : regex) (cb : T -> found -> T * Str.t) :
  needs P r = true ->
  forall s t p, clean P s -> replace_go ml r cb 0 t p s = (t, s).
Proof.
  intros Hn. induction s as [|c s IH]; intros t p Hs; simpl;
    rewrite (@exec_clean r p _ Hn Hs); [reflexivity|].
  inversion Hs; subst. now rewrite IH.
Qed.

Lemma replace_with_clean (T : Type) (r : regex) (cb : T -> found -> T * Str.t)
      (t : T) (s : Str.t) :
  needs P r = true -> clean P s -> replace_with ml r cb t s = (t, s).
Proof. intros. unfold replace_with. now apply replace_go_clean. Qed.

Lemma replace_clean (r : regex) (tpl s : Str.t) :
  needs P r = true -> clean P s -> replace ml r tpl s = s.
Proof. intros. unfold replace. now rewrite replace_with_clean. Qed.

End Clean.

(** *** The matcher and its continuation *)

(** A matcher uses its continuation only through the results it gives. *)
Definition respects (body : matcher) : Prop :=
  forall x k1 k2, (forall y, k1 y = k2 y) -> body x k1 = body x k2.

Lemma star_ext (body : matcher) gs greedy :
  respects body ->
  forall k1 k2, (forall y, k1 y = k2 y) ->
  forall n max x,
    star body gs greedy k1 n max x = star body gs greedy k2 n max x.
Proof.
  intros Hb k1 k2 Hk. induction n as [|n IH]; intros max x; simpl;
    rewrite (Hk x); [reflexivity|].
  destruct (max_is_zero max); [reflexivity|].
  rewrite (Hb (clear_caps gs x) _
              (fun y => if length (rest y) <? length (rest x)
                        then star body gs greedy k2 n (dec_max max) y
                        else None)).
  - reflexivity.
  - intro y. destruct (length (rest y) <? length (rest x)); [apply IH | reflexivity].
Qed.

Lemma req_ext (body : matcher) gs greedy :
  respects body ->
  forall k1 k2, (forall y, k1 y = k2 y) ->
  forall min max x,
    req body gs greedy k1 min max x = req body gs greedy k2 min max x.
Proof.
  intros Hb k1 k2 Hk. induction min as [|min IH]; intros max x; simpl.
  - now apply star_ext.
  - rewrite (Hk x). destruct (max_is_zero max); [reflexivity|].
    apply Hb. intro y. apply IH.
Qed.

Lemma single_ext (p : ascii -> bool) : respects (single p).
Proof.
  intros x k1 k2 Hk. unfold single. destruct (rest x) as [|c s]; [reflexivity|].
  destruct (p c); [apply Hk | reflexivity].
Qed.

Lemma m_ext (ml : bool) (r : regex) : respects (m ml r).
Proof.
  induction r as [ | c | | neg items | r1 IH1 r2 IH2 | r1 IH1 r2 IH2
                 | greedy min max r IH | i r IH | r IH | | | ];
    intros x k1 k2 Hk; simpl.
  - apply Hk.
  - now apply single_ext.
  - now apply single_ext.
  - now apply single_ext.
  - apply IH1. intro y. now apply IH2.
  - now rewrite (IH1 x k1 k2 Hk), (IH2 x k1 k2 Hk).
  - now apply req_ext.
  - apply IH. intro y. apply Hk.
  - now rewrite (Hk x).
  - unfold assert. now rewrite (Hk x).
  - unfold assert. now rewrite (Hk x).
  - unfold assert. now rewrite (Hk x).
Qed.

(** With a continuation that always fails, the matcher fails. *)
Lemma m_none (ml : bool) (r : regex) (x : state) (k : state -> option state) :
  (forall y, k y = None) -> m ml r x k = None.
Proof.
  intro Hk.
  apply (@m_blocked (fun _ => false) (fun _ => True)
           (fun _ _ _ => I) (fun _ _ _ => eq_refl) ml r x k).
  - exact I.
  - right. intros y _. apply Hk.
Qed.

(** The bound of [star] is never what ends the iteration: any bound that
    covers the length of the rest gives the same result. *)
Lemma star_bound (ml : bool) (r : regex) gs greedy k :
  forall n1 n2 max x,
    length (rest x) <= n1 -> length (rest x) <= n2 ->
    star (m ml r) gs greedy k n1 max x = star (m ml r) gs greedy k n2 max x.
Proof.
  assert (Zero : forall n max x,
             length (rest x) <= 0 ->
             star (m ml r) gs greedy k 0 max x = star (m ml r) gs greedy k n max x).
  { intros [|n] max x Hx; [reflexivity|]. simpl.
    destruct (max_is_zero max); [reflexivity|].
    rewrite (@m_none ml r (clear_caps gs x)).
    - destruct greedy; simpl; [reflexivity | now destruct (k x)].
    - intro y. destruct (length (rest y) <? length (rest x)) eqn:E; [|reflexivity].
      apply Nat.ltb_lt in E. lia. }
  induction n1 as [|n1 IH]; intros n2 max x H1 H2.
  - now apply Zero.
  - destruct n2 as [|n2]; [symmetry; now apply Zero|]. simpl.
    destruct (max_is_zero max); [reflexivity|].
    rewrite (@m_ext ml r (clear_caps gs x) _
               (fun y => if length (rest y) <? length (rest x)
                         then star (m ml r) gs greedy k n2 (dec_max max) y
                         else None)).
    + reflexivity.
    + intro y. destruct (length (rest y) <? length (rest x)) eqn:E; [|reflexivity].
      apply Nat.ltb_lt in E. apply IH; lia.
Qed.

(** *** Replacement where nothing matches *)

Lemma replace_go_nowhere (T : Type) (ml : bool) (r : regex)
      (cb : T -> found -> T * Str.t) :
  forall s t p,
    matches_nowhere ml r p s = true -> replace_go ml r cb 0 t p s = (t, s).
Proof.
  induction s as [|c s IH]; intros t p H; simpl in *;
    destruct (exec ml r p _); try discriminate; [reflexivity|].
  now rewrite IH.
Qed.

(** *** Matching a literal text and a run of digits *)

(** The code unit before the position reached after [run]. *)
Definition prev_after (run : Str.t) (p : option ascii) : option ascii :=
  fold_left (fun _ c => Some c) run p.

Lemma filter_all (A : Type) (l : list A) : filter (fun _ => true) l = l.
Proof. induction l; simpl; congruence. Qed.

Lemma clear_none (x : state) : clear_caps [] x = x.
Proof.
  destruct x as [p s cs]. unfold clear_caps. simpl. now rewrite filter_all.
Qed.

Lemma m_seq (ml : bool) (a b : regex) x k :
  m ml (Seq a b) x k = m ml a x (fun y => m ml b y k).
Proof. reflexivity. Qed.

Lemma m_grp (ml : bool) (i : nat) (a : regex) x k :
  m ml (Grp i a) x k
  = m ml a x (fun y =>
      k (set_cap i (firstn (length (rest x) - length (rest y)) (rest x)) y)).
Proof. reflexivity. Qed.

Lemma m_chr (ml : bool) (c : ascii) pv s cs k :
  m ml (Chr c) (mkState pv (c :: s) cs) k = k (mkState (Some c) s cs).
Proof. cbn [m]. unfold single. cbn [rest caps]. now rewrite Ascii.eqb_refl. Qed.


(** A literal text does not match where the first code unit differs. *)
Lemma m_text_miss (ml : bool) (c : ascii) (s rs : Str.t) pv cs k :
  match rs with [] => True | c' :: _ => Ascii.eqb c c' = false end ->
  m ml (lit (c :: s)) (mkState pv rs cs) k = None.
Proof.
  intro H.
  assert (E : forall k', m ml (Chr c) (mkState pv rs cs) k' = None).
  { intro k'. cbn [m]. unfold single. cbn [rest].
    destruct rs as [|c' rs]; [reflexivity | now rewrite H]. }
  destruct s as [|c1 s]; [apply E|].
  change (lit (c :: c1 :: s)) with (Seq (Chr c) (lit (c1 :: s))).
  rewrite m_seq. apply E.
Qed.

(** A greedy repetition of one class, on a run of the class that ends
    the text or is followed by a code unit outside the class, takes the
    whole run when the continuation accepts that. *)
Lemma star_run (p : ascii -> bool) (k : state -> option state) (tl : Str.t) :
  match tl with [] => True | c :: _ => p c = false end ->
  forall run n pv cs,
    forallb p run = true ->
    length (run ++ tl) <= n ->
    k (mkState (prev_after run pv) tl cs) <> None ->
    star (single p) [] true k n None (mkState pv (run ++ tl) cs)
    = k (mkState (prev_after run pv) tl cs).
Proof.
  intros Htl. induction run as [|c run IH]; intros n pv cs Hrun Hn Hk.
  - cbn [app prev_after fold_left]. destruct n as [|n]; [reflexivity|].
    cbn [star max_is_zero]. rewrite clear_none. unfold single.
    cbn [rest]. destruct tl as [|c tl']; [reflexivity|]. now rewrite Htl.
  - simpl in Hrun. apply andb_true_iff in Hrun. destruct Hrun as [Hc Hrun].
    destruct n as [|n]; [simpl in Hn; lia|]. simpl in Hn.
    cbn [star max_is_zero]. rewrite clear_none. unfold single at 1.
    cbn [rest app caps prev]. rewrite Hc.
    assert (L : (length (run ++ tl) <? S (length (run ++ tl))) = true)
      by (apply Nat.ltb_lt; lia).
    cbn [length]. rewrite L. cbn [dec_max option_map].
    rewrite (IH n (Some c) cs Hrun); [|lia|exact Hk].
    cbn [prev_after fold_left].
    destruct (k _) eqn:E; [reflexivity|]. contradiction.
Qed.





Lemma m_alt (ml : bool) (a b : regex) x k :
  m ml (Alt a b) x k = orelse (m ml a x k) (m ml b x k).
Proof. reflexivity. Qed.

(** A replacement whose pattern matches in no text with the property
    [I], which tails inherit, returns such a text as it is. *)
Lemma replace_go_inert (T : Type) (ml : bool) (r : regex)
      (cb : T -> found -> T * Str.t) (I : Str.t -> Prop) :
  (forall c s, I (c :: s) -> I s) ->
  (forall p s, I s -> exec ml r p s = None) ->
  forall s t p, I s -> replace_go ml r cb 0 t p s = (t, s).
Proof.
  intros Htail Hex. induction s as [|c s IH]; intros t p Hs; cbn [replace_go];
    rewrite (Hex p _ Hs); [reflexivity|].
  rewrite IH; [reflexivity|]. now apply Htail with c.
Qed.

(** *** Where a match can end *)

(** A matcher hands to its continuation only positions at or after its
    own, and what it returns is what the continuation returned. *)
Definition forward (body : matcher) : Prop :=
  forall x k z,
    body x k = Some z ->
    exists y, k y = Some z /\ length (rest y) <= length (rest x).

Lemma orelse_some (a b : option state) (z : state) :
  orelse a b = Some z -> a = Some z \/ b = Some z.
Proof. destruct a; simpl; auto. Qed.

Lemma star_forward (body : matcher) gs greedy k :
  forward body ->
  forall n max x z,
    star body gs greedy k n max x = Some z ->
    exists y, k y = Some z /\ length (rest y) <= length (rest x).
Proof.
  intro Hb. induction n as [|n IH]; intros max x z H; simpl in H.
  - exists x. split; [now destruct (max_is_zero max) | lia].
  - destruct (max_is_zero max); [exists x; split; [exact H | lia]|].
    assert (Hx : k x = Some z -> exists y, k y = Some z
                                          /\ length (rest y) <= length (rest x))
      by (intro E; exists x; split; [exact E | lia]).
    assert (Hd : body (clear_caps gs x)
                   (fun y => if length (rest y) <? length (rest x)
                             then star body gs greedy k n (dec_max max) y
                             else None) = Some z ->
                 exists y, k y = Some z /\ length (rest y) <= length (rest x)).
    { intro E. apply Hb in E. destruct E as (y & E & Hy). simpl in Hy.
      destruct (length (rest y) <? length (rest x)); [|discriminate].
      apply IH in E. destruct E as (y' & E & Hy'). exists y'. split; [exact E | lia]. }
    destruct greedy; apply orelse_some in H; destruct H; auto.
Qed.

Lemma req_forward (body : matcher) gs greedy k :
  forward body ->
  forall min max x z,
    req body gs greedy k min max x = Some z ->
    exists y, k y = Some z /\ length (rest y) <= length (rest x).
Proof.
  intro Hb. induction min as [|min IH]; intros max x z H; simpl in H.
  - now apply star_forward in H.
  - destruct (max_is_zero max); [exists x; split; [exact H | lia]|].
    apply Hb in H. destruct H as (y & E & Hy). simpl in Hy.
    apply IH in E. destruct E as (y' & E & Hy'). exists y'. split; [exact E | lia].
Qed.

Lemma single_forward (p : ascii -> bool) : forward (single p).
Proof.
  intros x k z H. unfold single in H. destruct (rest x) as [|c s] eqn:E;
    [discriminate|].
  destruct (p c); [|discriminate].
  eexists. split; [exact H|]. simpl. lia.
Qed.

Lemma m_forward (ml : bool) (r : regex) : forward (m ml r).
Proof.
  induction r as [ | c | | neg items | r1 IH1 r2 IH2 | r1 IH1 r2 IH2
                 | greedy min max r IH | i r IH | r IH | | | ];
    intros x k z H; simpl in H.
  - exists x. split; [exact H | lia].
  - now apply single_forward in H.
  - now apply single_forward in H.
  - now apply single_forward in H.
  - apply IH1 in H. destruct H as (y & E & Hy).
    apply IH2 in E. destruct E as (y' & E & Hy'). exists y'. split; [exact E | lia].
  - apply orelse_some in H. destruct H as [H|H]; [now apply IH1 | now apply IH2].
  - now apply req_forward in H.
  - apply IH in H. destruct H as (y & E & Hy). eexists. split; [exact E | exact Hy].
  - destruct (m ml r x _); [discriminate|]. exists x. split; [exact H | lia].
  - unfold assert in H. destruct (at_word_boundary x); [|discriminate].
    exists x. split; [exact H | lia].
  - unfold assert in H. destruct (at_bol ml x); [|discriminate].
    exists x. split; [exact H | lia].
  - unfold assert in H. destruct (at_eol ml x); [|discriminate].
    exists x. split; [exact H | lia].
Qed.

(** After a first literal code unit, a match ends in what follows it. *)
Lemma m_chr_forward (ml : bool) (c : ascii) (r : regex) pv s cs k z :
  m ml (Seq (Chr c) r) (mkState pv (c :: s) cs) k = Some z ->
  exists y, k y = Some z /\ length (rest y) <= length s.
Proof.
  rewrite m_seq, m_chr. intro H. apply m_forward in H. exact H.
Qed.

(** A lazy repetition of one class, on a run of the class, succeeds when
    the continuation accepts the end of the run. *)
Lemma star_lazy_some (p : ascii -> bool) (k : state -> option state) (tl : Str.t) :
  forall run n pv cs,
    forallb p run = true ->
    length (run ++ tl) <= n ->
    k (mkState (prev_after run pv) tl cs) <> None ->
    star (single p) [] false k n None (mkState pv (run ++ tl) cs) <> None.
Proof.
  induction run as [|c run IH]; intros n pv cs Hrun Hn Hk.
  - cbn [app prev_after fold_left] in *. destruct n as [|n]; [exact Hk|].
    cbn [star max_is_zero]. now destruct (k _).
  - simpl in Hrun. apply andb_true_iff in Hrun. destruct Hrun as [Hc Hrun].
    destruct n as [|n]; [simpl in Hn; lia|]. simpl in Hn.
    cbn [star max_is_zero]. destruct (k (mkState pv ((c :: run) ++ tl) cs));
      [discriminate|]. cbn [orelse].
    rewrite clear_none. unfold single at 1. cbn [rest app caps prev]. rewrite Hc.
    assert (L : (length (run ++ tl) <? S (length (run ++ tl))) = true)
      by (apply Nat.ltb_lt; lia).
    cbn [length]. rewrite L. cbn [dec_max option_map].
    apply IH; [exact Hrun | lia | exact Hk].
Qed.

(** *** Replacement at and after a match *)

Section ReplaceSteps.

Variable T : Type.
Variable ml : bool.
Variable r : regex.
Variable cb : T -> found -> T * Str.t.




End ReplaceSteps.

End ReFacts.

Module NormalizerFacts.

Import Re Needs ReFacts Normalizer.

(** The code units the patterns of [preprocessText] key on: white space
    and the punctuation [, $ = \ * : # _]. *)
Definition trigger (c : ascii) : bool :=
  Str.is_space c || existsb (Ascii.eqb c) (str ",$=*:#_" ++ [backslash]).

(** A text with no trigger in it. *)
Definition plain (s : Str.t) : bool := cleanb trigger s.

Lemma plain_clean (s : Str.t) : plain s = true -> clean trigger s.
Proof.
  unfold plain, cleanb, clean. rewrite forallb_forall, Forall_forall.
  intros H c Hc. specialize (H c Hc). now apply negb_true_iff in H.
Qed.

Lemma plain_no_space (s : Str.t) :
  clean trigger s -> Forall (fun c => Str.is_space c = false) s.
Proof.
  apply Forall_impl. intros c H. unfold trigger in H.
  now apply orb_false_iff in H.
Qed.

(** Every pattern of the chain needs a trigger. *)
Lemma patterns_need_trigger :
  forallb (needs trigger)
    [re_spaced; re_comma; re_eol; re_math; re_malformed; re_command;
     re_quantum; re_bold; re_join1; re_colon_math; re_url; re_blank;
     re_join2; re_heading; re_list; re_phrase1; re_phrase2; re_token;
     re_space_after; re_space_before; re_display] = true.
Proof. vm_compute. reflexivity. Qed.

Ltac need_trigger :=
  match goal with
  | |- needs trigger ?r = true =>
      let H := fresh in
      pose proof patterns_need_trigger as H;
      rewrite forallb_forall in H; apply H; simpl; tauto
  end.

(** Rewrites the replacements applied to the trigger-free text [s]. *)
Ltac untouched s H :=
  repeat first
    [ rewrite (@replace_clean trigger _ _ _ s) by (first [need_trigger | exact H])
    | rewrite (@replace_with_clean trigger _ _ _ _ _ s)
        by (first [need_trigger | exact H]) ].

Lemma normalize_plain (s : Str.t) : clean trigger s -> normalize s = s.
Proof.
  intro H. unfold normalize, comma_cleanup, defragment, protect_all.
  untouched s H. unfold finish, restore, format. untouched s H.
  rewrite (StrFacts.trim_no_space (plain_no_space H)).
  untouched s H. cbn [snd]. untouched s H. reflexivity.
Qed.

(** On a text without white space and without [, $ = \ * : # _] the
    normalizer changes nothing. *)
Lemma preprocessText_plain (s : Str.t) :
  clean trigger s -> preprocessText (JString s) = s.
Proof.
  intro H. destruct s as [|c s]; [reflexivity|].
  simpl. now apply normalize_plain.
Qed.

(** C1 (the code diverges): the normalizer is not idempotent, and the
    component applies it twice to the same text.  The content stored
    for a streamed message is [preprocessText(accumulatedContent)], and
    what is shown for a stored message is [preprocessText(msg.content)].
    On the stream of the two frames ["data: a"] and ["data: 1."] the
    accumulated content is the two lines ["a"] and ["1."]; the content
    stored at the end of the stream keeps them on two lines, the line
    of the list marker ["1."] being kept apart, and the text shown for
    that content is ["a 1."] on one line.  Likewise the message [",,so"]
    is sent and stored as [",so"] and shown as ["so"]. *)
Theorem C1_stored_content_is_shown_changed :
  (* the streamed message *)
  last (Stream.rendered
          (Stream.read_all [str "data: a" ++ [LF; LF];
                            str "data: 1." ++ [LF; LF]])) []
  = preprocessText (JString (str "a" ++ [LF] ++ str "1." ++ [LF])) /\
  preprocessText (JString (str "a" ++ [LF] ++ str "1." ++ [LF]))
  = str "a" ++ [LF] ++ str "1." /\
  (forall role web time,
     Chat.displayed
       (Conversation.mkMessage role (str "a" ++ [LF] ++ str "1.") web time)
     = str "a 1.") /\
  preprocessText
    (JString (preprocessText (JString (str "a" ++ [LF] ++ str "1." ++ [LF]))))
  <> preprocessText (JString (str "a" ++ [LF] ++ str "1." ++ [LF])) /\
  (* the message of the user *)
  (forall id now,
     exists c' r,
       Chat.handleSendMessage id now 0
         (Chat.mkState (str ",,so") (fun _ => None) [] None false false
                       (str "New Chat") [] false)
       = (c', Some r) /\
       Chat.body_message r = str ",so" /\
       Conversation.view (Chat.objects c') (Chat.messages c')
       = [Some (Conversation.mkMessage (str "user") (str ",so") false now)] /\
       Chat.displayed (Conversation.mkMessage (str "user") (str ",so") false now)
       = str "so").
Proof.
  split; [vm_compute; reflexivity|].
  split; [vm_compute; reflexivity|].
  split; [intros; vm_compute; reflexivity|].
  split; [vm_compute; discriminate|].
  intros id now. eexists. eexists.
  split; [unfold Chat.handleSendMessage; vm_compute; reflexivity|].
  split; [reflexivity|]. split; [reflexivity|]. vm_compute. reflexivity.
Qed.

(** C4: on ["W h e n x = 1 , then y = 2"] the first pattern merges the
    three letters [W h e] and leaves [n] apart; with the comma removed
    the result is ["Whe n x = 1 then y = 2"], not ["When x = 1 then y = 2"]. *)
Theorem C4_defragment_scenario :
  defragment (str "W h e n x = 1 , then y = 2")
  = str "Whe n x = 1 , then y = 2" /\
  comma_cleanup (defragment (str "W h e n x = 1 , then y = 2"))
  = str "Whe n x = 1 then y = 2" /\
  comma_cleanup (defragment (str "W h e n x = 1 , then y = 2"))
  <> str "When x = 1 then y = 2".
Proof.
  split; [vm_compute; reflexivity|].
  split; [vm_compute; reflexivity|].
  vm_compute. discriminate.
Qed.

Lemma lookup_total (tbl : table) (index : Str.t) :
  In (lookup tbl index) (str "undefined" :: tbl).
Proof.
  unfold lookup.
  destruct (NilEmpty.uint_of_string (string_of_list_ascii index)) as [u|];
    [|now left].
  destruct (Str.eqb (decimal (Nat.of_uint u)) index); [|now left].
  destruct (nth_in_or_default (Nat.of_uint u) tbl (str "undefined")) as [H|H].
  - now right.
  - left. now rewrite H.
Qed.

(** C8: [preprocessText] is a function from every input to a string,
    with no error value in any of its steps: a missing or empty input
    gives the empty string; a replacement whose pattern matches nowhere
    returns its text, and the table, as they were; reading the table
    never fails, an index without an entry giving the text "undefined";
    and the bound that makes the repetition of the matcher a structural
    recursion is never what ends an iteration. *)
Theorem C8_total :
  preprocessText Undefined = [] /\
  preprocessText (JString []) = [] /\
  (forall (T : Type) ml r (cb : T -> found -> T * Str.t) t s,
      matches_nowhere ml r None s = true ->
      replace_with ml r cb t s = (t, s)) /\
  (forall ml r tpl s,
      matches_nowhere ml r None s = true -> replace ml r tpl s = s) /\
  (forall tbl index, In (lookup tbl index) (str "undefined" :: tbl)) /\
  (forall ml r gs greedy k n max x,
      length (rest x) <= n ->
      star (m ml r) gs greedy k n max x
      = star (m ml r) gs greedy k (length (rest x)) max x).
Proof.
  split; [reflexivity|]. split; [reflexivity|]. split; [|split; [|split]].
  - intros T ml r cb t s H. unfold replace_with. now apply replace_go_nowhere.
  - intros ml r tpl s H. unfold replace, replace_with.
    now rewrite replace_go_nowhere.
  - apply lookup_total.
  - intros ml r gs greedy k n max x H. now apply star_bound.
Qed.

Lemma C8_total_witness :
  matches_nowhere false re_blank None (str "no blank lines here") = true /\
  replace false re_blank [LF; LF] (str "no blank lines here")
  = str "no blank lines here" /\
  replace_with false re_token cb_restore [str "$x$"] (str "E = mc^2")
  = ([str "$x$"], str "E = mc^2").
Proof.
  destruct C8_total as (_ & _ & H1 & H2 & _).
  split; [reflexivity|]. split.
  - apply H2. reflexivity.
  - apply H1. reflexivity.
Defined.

(** *** Restoration *)












(** *** The two passes over math spans *)

Definition is_dollar (c : ascii) : bool := Ascii.eqb c "$".

Definition dollars (s : Str.t) : nat := length (filter is_dollar s).

Lemma dollars_app (a b : Str.t) : dollars (a ++ b) = dollars a + dollars b.
Proof. unfold dollars. now rewrite filter_app, length_app. Qed.

Lemma math_needs_dollar : needs is_dollar re_math = true.
Proof. vm_compute. reflexivity. Qed.

Lemma not_dollar (c : ascii) : is_dollar c = false -> Ascii.eqb "$" c = false.
Proof. unfold is_dollar. now rewrite Ascii.eqb_sym. Qed.

Lemma exec_math_miss (p : option ascii) (s : Str.t) :
  match s with [] => True | c :: _ => is_dollar c = false end ->
  exec false re_math p s = None.
Proof.
  intro H.
  assert (H' : match s with [] => True | c :: _ => Ascii.eqb "$" c = false end)
    by (destruct s; [exact I | now apply not_dollar]).
  unfold exec, re_math, math_span, text. cbn [seq]. rewrite m_grp, m_alt, !m_seq.
  change (str "$$") with ["$"%char; "$"%char].
  change (Chr "$") with (lit ["$"%char]).
  now rewrite !m_text_miss.
Qed.

Lemma exec_math_length (p : option ascii) (s : Str.t) n cs :
  exec false re_math p s = Some (n, cs) -> 1 <= n.
Proof.
  destruct s as [|c s]; [now rewrite exec_math_miss|].
  destruct (is_dollar c) eqn:Ec; [|now rewrite exec_math_miss].
  apply Ascii.eqb_eq in Ec. subst c.
  unfold exec. destruct (m false re_math _ _) as [y|] eqn:E; [|discriminate].
  intro H. injection H as <- _.
  enough (length (rest y) <= length s) by (destruct (length (rest y)); lia).
  unfold re_math, math_span, text in E. cbn [seq] in E. rewrite m_grp, m_alt in E.
  apply orelse_some in E. destruct E as [E|E].
  - change (m false (Seq (Chr "$") (Seq (Chr "$")
              (Seq (many_lazy anything) (lit (str "$$")))))
              (mkState p ("$"%char :: s) [])
              (fun y => Some (set_cap 1
                 (firstn (length ("$"%char :: s) - length (rest y)) ("$"%char :: s)) y))
            = Some y) in E.
    apply m_chr_forward in E. destruct E as (y' & E & Hy).
    injection E as <-. exact Hy.
  - apply m_chr_forward in E. destruct E as (y' & E & Hy).
    injection E as <-. exact Hy.
Qed.


Lemma first_dollar (s : Str.t) :
  existsb is_dollar s = true ->
  exists a b, s = a ++ "$"%char :: b
              /\ forallb (cls_mem true [IChar "$"]) a = true.
Proof.
  induction s as [|c s IH]; [discriminate|]. cbn [existsb].
  destruct (is_dollar c) eqn:Ec.
  - intros _. apply Ascii.eqb_eq in Ec. subst c. now exists [], s.
  - cbn [orb]. intro H. destruct (IH H) as (a & b & -> & Ha).
    exists (c :: a), b. split; [reflexivity|]. cbn [forallb]. rewrite Ha.
    unfold cls_mem. cbn [existsb item_mem]. fold (is_dollar c). now rewrite Ec.
Qed.

Lemma exec_math_hit (p : option ascii) (s : Str.t) :
  existsb is_dollar s = true ->
  exec false re_math p ("$"%char :: s) <> None.
Proof.
  intro H. destruct (first_dollar s H) as (a & b & -> & Ha).
  unfold exec.
  enough (E : m false re_math (mkState p ("$"%char :: a ++ "$"%char :: b) [])
                (fun y => Some y) <> None)
    by (destruct (m false re_math _ _); [discriminate | contradiction]).
  unfold re_math, math_span. rewrite m_grp, m_alt.
  destruct (m false (seq [text "$$"; many_lazy anything; text "$$"]) _ _);
    [discriminate|]. cbn [orelse seq].
  rewrite m_seq, m_chr, m_seq. unfold many_lazy, none_of.
  cbn [m req groups rest str Str.of_string list_ascii_of_string map].
  apply star_lazy_some.
  - exact Ha.
  - lia.
  - unfold single. cbn [rest caps]. discriminate.
Qed.

Lemma decimal_digits (n : nat) : forallb Str.is_digit (decimal n) = true.
Proof.
  unfold decimal. generalize (Nat.to_uint n). intro u.
  induction u; cbn [NilEmpty.string_of_uint Str.of_string list_ascii_of_string forallb];
    try rewrite IHu; reflexivity.
Qed.

Lemma digits_no_dollar (s : Str.t) :
  forallb Str.is_digit s = true -> dollars s = 0.
Proof.
  induction s as [|c s IH]; [reflexivity|]. cbn [forallb]. intro H.
  apply andb_true_iff in H. destruct H as [Hc Hs].
  unfold dollars in *. cbn [filter].
  destruct (is_dollar c) eqn:E; [|now apply IH].
  apply Ascii.eqb_eq in E. subst c. discriminate.
Qed.

Lemma token_no_dollar (n : nat) : dollars (token n) = 0.
Proof.
  unfold token. rewrite !dollars_app, (digits_no_dollar _ (decimal_digits n)).
  reflexivity.
Qed.

Lemma no_dollar_clean (s : Str.t) :
  existsb is_dollar s = false -> clean is_dollar s /\ dollars s = 0.
Proof.
  induction s as [|c s IH]; [split; [constructor | reflexivity]|].
  cbn [existsb]. intro H. apply orb_false_iff in H. destruct H as [Hc Hs].
  destruct (IH Hs) as [H1 H2]. split; [now constructor|].
  unfold dollars in *. cbn [filter]. now rewrite Hc.
Qed.

(** The first protection pass leaves at most one dollar sign. *)
Lemma pass_a_dollars (s : Str.t) :
  forall skip t p,
    dollars (snd (replace_go false re_math cb_math skip t p s)) <= 1.
Proof.
  induction s as [|c s IH]; intros skip t p.
  - destruct skip; cbn [replace_go]; [|cbn; lia].
    rewrite exec_math_miss by exact I. cbn. lia.
  - destruct skip as [|j]; cbn [replace_go]; [|apply IH].
    destruct (exec false re_math p (c :: s)) as [[n cs]|] eqn:E.
    + pose proof (exec_math_length _ _ E) as Hn.
      destruct n as [|n]; [lia|].
      unfold cb_math, protect. cbn [app].
      specialize (IH n (t ++ [firstn (S n) (c :: s)]) (Some c)).
      destruct (replace_go false re_math _ n _ (Some c) s) as [t2 out].
      cbn [snd] in *. rewrite dollars_app, token_no_dollar. lia.
    + destruct (is_dollar c) eqn:Ec.
      * destruct (existsb is_dollar s) eqn:Es.
        -- apply Ascii.eqb_eq in Ec. subst c.
           now destruct (exec_math_hit p s Es).
        -- destruct (no_dollar_clean s Es) as [Hc Hd].
           rewrite (@replace_go_clean is_dollar false _ re_math cb_math
                      math_needs_dollar s t (Some c) Hc).
           cbn [snd]. unfold dollars in *. cbn [filter]. rewrite Ec.
           cbn [length]. lia.
      * specialize (IH 0 t (Some c)).
        destruct (replace_go false re_math cb_math 0 t (Some c) s) as [t2 out].
        cbn [snd] in *. unfold dollars in *. cbn [filter]. now rewrite Ec.
Qed.


Lemma dollars_tail (c : ascii) (s : Str.t) : dollars (c :: s) <= 1 -> dollars s <= 1.
Proof. unfold dollars. cbn [filter]. destruct (is_dollar c); cbn [length]; lia. Qed.

(** ["$$"] does not start a text that has at most one dollar sign. *)
Lemma no_pair (k : state -> option state) (y : state) :
  dollars (rest y) <= 1 -> m false (text "$$") y k = None.
Proof.
  destruct y as [pv rs cs]. cbn [rest]. intro H. unfold text.
  change (str "$$") with ["$"%char; "$"%char].
  destruct rs as [|c1 rs]; [now apply m_text_miss|].
  destruct (is_dollar c1) eqn:E1; [|apply m_text_miss; now apply not_dollar].
  apply Ascii.eqb_eq in E1. subst c1.
  change (lit ["$"%char; "$"%char]) with (Seq (Chr "$") (lit ["$"%char])).
  rewrite m_seq, m_chr. apply m_text_miss.
  destruct rs as [|c2 rs]; [exact I|]. apply not_dollar.
  destruct (is_dollar c2) eqn:E2; [|reflexivity].
  unfold dollars in H. cbn [filter] in H. rewrite E2 in H.
  cbn [is_dollar Ascii.eqb] in H. cbn in H. lia.
Qed.

Lemma exec_malformed_none (p : option ascii) (s : Str.t) :
  dollars s <= 1 -> exec false re_malformed p s = None.
Proof.
  intro H. unfold exec.
  enough (E : m false re_malformed (mkState p s []) (fun y => Some y) = None)
    by now rewrite E.
  unfold re_malformed. cbn [seq].
  change (m false
            (Seq (Seq (Chr "=") (Seq (many space) (Grp 1 (many_lazy (none_of "$")))))
                 (text "$$"))
            (mkState p s []) (fun y => Some y) = None).
  rewrite m_seq.
  apply (@m_blocked (fun _ => false) (fun s => dollars s <= 1) dollars_tail
           (fun _ _ _ => eq_refl) false).
  - exact H.
  - right. intros y Hy. now apply no_pair.
Qed.

Lemma pass_b_inert (t : Str.t) (tbl0 : table) :
  replace_with false re_malformed cb_malformed
    (fst (replace_with false re_math cb_math tbl0 t))
    (snd (replace_with false re_math cb_math tbl0 t))
  = replace_with false re_math cb_math tbl0 t.
Proof.
  pose proof (pass_a_dollars t 0 tbl0 None) as H.
  unfold replace_with in *.
  destruct (replace_go false re_math cb_math 0 tbl0 None t) as [tbl t1].
  cbn [fst snd] in *.
  apply (@replace_go_inert _ false re_malformed cb_malformed
           (fun s => dollars s <= 1) dollars_tail); [|exact H].
  intros p s Hs. now apply exec_malformed_none.
Qed.

(** C3: whatever the input, the second protection pass changes nothing:
    the first pass replaces every dollar sign that another one follows,
    the closing ["$$"] of a malformed span being taken for an empty
    inline span, so at most one dollar sign is left and the pattern of the
    second pass, which ends in ["$$"], matches nowhere.  On
    ["x = a+b$$"] the table holds ["$$"] alone, never ["$a+b$"], and the
    output still ends in the dangling ["$$"]. *)
Theorem C3_malformed_span_not_rewrapped :
  (forall t tbl0,
      replace_with false re_malformed cb_malformed
        (fst (replace_with false re_math cb_math tbl0 t))
        (snd (replace_with false re_math cb_math tbl0 t))
      = replace_with false re_math cb_math tbl0 t) /\
  replace_with false re_math cb_math [] (str "x = a+b$$")
  = ([str "$$"], str "x = a+b__LATEX_0__") /\
  protect_all (str "x = a+b$$") = ([str "$$"], str "x = a+b__LATEX_0__") /\
  preprocessText (JString (str "x = a+b$$")) = str "x = a+b$$".
Proof.
  split; [exact pass_b_inert|].
  split; [vm_compute; reflexivity|].
  split; vm_compute; reflexivity.
Qed.

End NormalizerFacts.

Module StreamFacts.

Import Normalizer Stream.

Lemma lines_app (a b : list Str.t) : lines (a ++ b) = lines a ++ lines b.
Proof. unfold lines. now rewrite map_app, concat_app. Qed.

Lemma prefixes_app (A : Type) (a b : list A) :
  prefixes (a ++ b) = prefixes a ++ map (app a) (prefixes b).
Proof.
  induction a as [|x a IH]; simpl.
  - now rewrite map_id.
  - rewrite IH, map_app, map_map. reflexivity.
Qed.

(** What the normalizer is given once the payloads [ds] have followed
    the content [acc]. *)
Definition shown (acc : Str.t) (ds : list Str.t) : Str.t :=
  preprocessText (JString (acc ++ lines ds)).

Lemma process_parts (parts : list Str.t) :
  forall st,
    let st' := fold_left process_part parts st in
    buffer st' = buffer st /\
    accumulatedContent st' = accumulatedContent st ++ lines (payloads parts) /\
    rendered st'
    = rendered st ++ map (shown (accumulatedContent st)) (prefixes (payloads parts)).
Proof.
  induction parts as [|p ps IH]; intro st; cbn [fold_left payloads].
  - cbn [prefixes map lines concat]. now rewrite !app_nil_r.
  - destruct (payload p) as [d|] eqn:E.
    + assert (Hp : process_part st p
                   = mkDecoder (buffer st) (accumulatedContent st ++ d ++ [LF])
                       (rendered st ++
                        [preprocessText (JString (accumulatedContent st ++ d ++ [LF]))]))
        by (unfold process_part; now rewrite E).
      rewrite Hp. destruct (IH (mkDecoder (buffer st) (accumulatedContent st ++ d ++ [LF])
                      (rendered st ++
                       [preprocessText (JString (accumulatedContent st ++ d ++ [LF]))])))
        as (Hb & Ha & Hr).
      cbn [buffer accumulatedContent rendered] in Hb, Ha, Hr.
      split; [exact Hb|]. split.
      * rewrite Ha. unfold lines. cbn [map concat]. now rewrite <- !app_assoc.
      * rewrite Hr, <- app_assoc. f_equal. cbn [prefixes map app]. f_equal.
        -- unfold shown, lines. cbn [map concat]. now rewrite app_nil_r.
        -- rewrite map_map. apply map_ext. intro ds.
           unfold shown, lines. cbn [map concat]. now rewrite <- !app_assoc.
    + assert (Hp : process_part st p = st)
        by (unfold process_part; now rewrite E).
      rewrite Hp. apply IH.
Qed.

Lemma feed_spec (st : decoder) (chunk : Str.t) :
  let parts := Str.split boundary (buffer st ++ chunk) in
  buffer (feed st chunk) = last parts [] /\
  accumulatedContent (feed st chunk)
  = accumulatedContent st ++ lines (payloads (removelast parts)) /\
  rendered (feed st chunk)
  = rendered st
    ++ map (shown (accumulatedContent st)) (prefixes (payloads (removelast parts))).
Proof.
  unfold feed.
  destruct (process_parts (removelast (Str.split boundary (buffer st ++ chunk)))
              (mkDecoder (last (Str.split boundary (buffer st ++ chunk)) [])
                         (accumulatedContent st) (rendered st)))
    as (Hb & Ha & Hr).
  cbn [buffer accumulatedContent rendered] in Hb, Ha, Hr. auto.
Qed.

Lemma feed_all (chunks : list Str.t) :
  forall st,
    let st' := fold_left feed chunks st in
    accumulatedContent st'
    = accumulatedContent st ++ lines (received (buffer st) chunks) /\
    rendered st'
    = rendered st
      ++ map (shown (accumulatedContent st)) (prefixes (received (buffer st) chunks)).
Proof.
  induction chunks as [|c cs IH]; intro st; cbn [fold_left received].
  - cbn [prefixes map lines concat]. now rewrite !app_nil_r.
  - destruct (feed_spec st c) as (Hb & Ha & Hr).
    destruct (IH (feed st c)) as (Ha' & Hr').
    rewrite Hb in Ha', Hr'. split.
    + rewrite Ha', Ha, lines_app. now rewrite <- app_assoc.
    + rewrite Hr', Hr, Ha, prefixes_app, map_app, <- app_assoc. f_equal. f_equal.
      rewrite map_map. apply map_ext. intro ds.
      unfold shown. now rewrite lines_app, <- app_assoc.
Qed.

Lemma payload_spec (part d : Str.t) :
  payload part = Some d <->
  Str.startsWith marker (Str.trim part) = true /\
  d = data_of (Str.trim part) /\ d <> sentinel.
Proof.
  unfold payload. split.
  - destruct (Str.startsWith marker (Str.trim part)); simpl; [|discriminate].
    destruct (Str.eqb (data_of (Str.trim part)) sentinel) eqn:E; [discriminate|].
    intro H. injection H as <-. apply StrFacts.eqb_neq in E. auto.
  - intros (Hm & -> & Hs). rewrite Hm. simpl.
    apply StrFacts.eqb_neq in Hs. now rewrite Hs.
Qed.

(** C5: the chunk ["data: ab"] leaves no payload and stays in the
    residual buffer; the chunk ["c\n\n"] that follows completes the frame,
    and the loop is then in the state the single chunk ["data: abc\n\n"]
    puts it in, with the one payload ["abc"]. *)
Theorem C5_frame_reassembly :
  feed start (str "data: ab") = mkDecoder (str "data: ab") [] [] /\
  feed (feed start (str "data: ab")) (str "c" ++ [LF; LF])
  = feed start (str "data: abc" ++ [LF; LF]) /\
  received [] [str "data: ab"; str "c" ++ [LF; LF]] = [str "abc"] /\
  received [] [str "data: abc" ++ [LF; LF]] = [str "abc"] /\
  feed start (str "data: abc" ++ [LF; LF])
  = mkDecoder [] (str "abc" ++ [LF]) [str "abc"].
Proof. repeat split; vm_compute; reflexivity. Qed.

(** C6, as amended: a frame yields a payload exactly when its text,
    trimmed of surrounding white space, begins with ["data:"] and what
    follows the marker, trimmed, is not ["[DONE]"]; the payload is that
    trimmed remainder; a frame that yields none leaves the loop state as
    it was. *)
Theorem C6_frame_filter (part : Str.t) :
  (forall d, payload part = Some d <->
             Str.startsWith marker (Str.trim part) = true /\
             d = data_of (Str.trim part) /\ d <> sentinel) /\
  (forall st, Str.startsWith marker (Str.trim part) = false ->
              process_part st part = st).
Proof.
  split.
  - intro d. apply payload_spec.
  - intros st H. unfold process_part, payload. now rewrite H.
Qed.

Lemma C6_frame_filter_witness :
  payload (str "event: ping") = None /\
  process_part start (str "event: ping") = start /\
  payload (str "data: hello") = Some (str "hello").
Proof.
  split; [reflexivity|]. split.
  - apply (proj2 (C6_frame_filter (str "event: ping")) start). reflexivity.
  - apply (proj1 (C6_frame_filter (str "data: hello")) (str "hello")).
    split; [reflexivity|]. split; [reflexivity|]. vm_compute. discriminate.
Defined.

(** C6, as stated, fails: the frame [" data:x"] does not begin with the
    marker and yields the payload ["x"]; the frame ["data: [DONE]"]
    begins with it and yields none; and from ["data:  x "] more than one
    separator is stripped. *)
Lemma C6_marker_is_tested_after_trim :
  ~ (payload (str " data:x") <> None <->
     Str.startsWith marker (str " data:x") = true) /\
  payload (str " data:x") = Some (str "x") /\
  Str.startsWith marker (str "data: [DONE]") = true /\
  payload (str "data: [DONE]") = None /\
  payload (str "data:  x ") = Some (str "x").
Proof.
  split; [|repeat split; vm_compute; reflexivity].
  intros [H _]. assert (E : payload (str " data:x") <> None)
    by (vm_compute; discriminate).
  apply H in E. vm_compute in E. discriminate.
Qed.

(** C7: a frame whose payload is ["[DONE]"] yields nothing: the
    accumulated content, and the trace of what was handed to the
    normalizer and shown, stay as they were. *)
Theorem C7_sentinel_dropped (st : decoder) (part : Str.t) :
  data_of (Str.trim part) = sentinel ->
  payload part = None /\
  process_part st part = st /\
  accumulatedContent (process_part st part) = accumulatedContent st /\
  rendered (process_part st part) = rendered st.
Proof.
  intro H.
  assert (E : payload part = None).
  { unfold payload. rewrite H, StrFacts.eqb_refl.
    now destruct (negb (Str.startsWith marker (Str.trim part))). }
  unfold process_part. rewrite E. auto.
Qed.

Lemma C7_sentinel_dropped_witness :
  data_of (Str.trim (str "data: [DONE]")) = sentinel /\
  payload (str "data: [DONE]") = None /\
  process_part (mkDecoder [] (str "Hi" ++ [LF]) [str "Hi"]) (str "data: [DONE]")
  = mkDecoder [] (str "Hi" ++ [LF]) [str "Hi"] /\
  accumulatedContent
    (process_part (mkDecoder [] (str "Hi" ++ [LF]) [str "Hi"]) (str "data: [DONE]"))
  = str "Hi" ++ [LF] /\
  rendered
    (process_part (mkDecoder [] (str "Hi" ++ [LF]) [str "Hi"]) (str "data: [DONE]"))
  = [str "Hi"].
Proof.
  split; [reflexivity|].
  apply (@C7_sentinel_dropped (mkDecoder [] (str "Hi" ++ [LF]) [str "Hi"])
           (str "data: [DONE]")).
  reflexivity.
Defined.

(** No payload of any list of frames is the sentinel. *)
Lemma payloads_without_sentinel (parts : list Str.t) :
  ~ In sentinel (payloads parts).
Proof.
  induction parts as [|p ps IH]; simpl; [tauto|].
  destruct (payload p) as [d|] eqn:E; [|exact IH].
  apply payload_spec in E. destruct E as (_ & _ & Hd).
  simpl. intros [H|H]; [congruence | now apply IH].
Qed.

(** C10: a payload is the frame text trimmed, less its first five code
    units, trimmed again; processing a frame with a payload appends the
    payload and one line feed to the accumulated content; and after any
    sequence of chunks the accumulated content is the payloads received
    so far, each followed by one line feed, every content shown, during
    the loop and after it, being the normalizer applied to such a
    concatenation. *)
Theorem C10_payloads_accumulate :
  (forall part d,
      payload part = Some d ->
      d = Str.trim (Str.slice 5 (Str.trim part))) /\
  (forall st part d,
      payload part = Some d ->
      accumulatedContent (process_part st part)
      = accumulatedContent st ++ d ++ [LF]) /\
  (forall chunks,
      accumulatedContent (fold_left feed chunks start)
      = lines (received [] chunks) /\
      rendered (fold_left feed chunks start)
      = map (fun ds => preprocessText (JString (lines ds)))
            (prefixes (received [] chunks)) /\
      rendered (read_all chunks)
      = map (fun ds => preprocessText (JString (lines ds)))
            (prefixes (received [] chunks))
        ++ [preprocessText (JString (lines (received [] chunks)))]).
Proof.
  split; [|split].
  - intros part d H. apply payload_spec in H. now destruct H as (_ & -> & _).
  - intros st part d H. unfold process_part. now rewrite H.
  - intro chunks. destruct (feed_all chunks start) as (Ha & Hr).
    cbn [start buffer accumulatedContent rendered app] in Ha, Hr.
    unfold read_all. cbn [rendered]. rewrite Ha, Hr. auto.
Qed.

Lemma C10_payloads_accumulate_witness :
  str "Hello" = Str.trim (Str.slice 5 (Str.trim (str " data:  Hello "))) /\
  accumulatedContent (process_part start (str " data:  Hello "))
  = str "Hello" ++ [LF] /\
  accumulatedContent
    (fold_left feed [str "data: Hello" ++ [LF; LF]; str "data:  world" ++ [LF; LF]]
               start)
  = str "Hello" ++ [LF] ++ str "world" ++ [LF].
Proof.
  destruct C10_payloads_accumulate as (H1 & H2 & H3).
  split; [|split].
  - apply (H1 (str " data:  Hello ")). reflexivity.
  - apply (H2 start (str " data:  Hello ") (str "Hello")). reflexivity.
  - rewrite (proj1 (H3 _)). reflexivity.
Defined.

End StreamFacts.

Module ConversationFacts.

Import Conversation.

Lemma last_some (init : list ref) (l : ref) :
  last (map Some (init ++ [l])) None = Some l.
Proof. rewrite map_app. simpl. apply last_last. Qed.

Lemma view_update (h : store) (l : ref) (v : message) (arr : list ref) :
  ~ In l arr -> view (update h l v) arr = view h arr.
Proof.
  intro H. unfold view. apply map_ext_in. intros a Ha. unfold update.
  destruct (a =? l) eqn:E; [|reflexivity].
  apply Nat.eqb_eq in E. subst. contradiction.
Qed.


(** The store of the two scenarios: a user message at 0 and the
    assistant message at 1 with the content [c]. *)
Definition two_messages (c : Str.t) : store :=
  update (update (fun _ => None) 0
                 (mkMessage (str "user") (str "Hi") false (str "t0")))
         1 (mkMessage (str "assistant") c false (str "t1")).


(** Cancellation before any content has arrived removes the assistant
    message. *)
Example cancel_before_content :
  cancel_messages (two_messages []) [0; 1] = (two_messages [], [0]) /\
  handleCancel (mkChat (two_messages (str "  ")) [0; 1] true true)
  = mkChat (two_messages (str "  ")) [0] false false.
Proof. split; reflexivity. Qed.

End ConversationFacts.

(* ------------------------------------------------------------------ *)
(** * Further properties *)

(** ** Splitting and joining *)

Module TextFacts.

Import Str Text.

Lemma startsWith_split (p s : t) :
  startsWith p s = true -> s = p ++ skipn (length p) s.
Proof.
  revert s. induction p as [|a p IH]; intros [|b s] H; try reflexivity;
    try discriminate.
  simpl in H. apply andb_true_iff in H. destruct H as [Hab H].
  apply Ascii.eqb_eq in Hab. subst b. simpl. f_equal. now apply IH.
Qed.

Lemma startsWith_length (p s : t) :
  startsWith p s = true -> length p <= length s.
Proof.
  revert s. induction p as [|a p IH]; intros [|b s] H; simpl in *;
    try lia; try discriminate.
  apply andb_true_iff in H. destruct H as [_ H]. apply IH in H. lia.
Qed.

Lemma startsWith_app (p s b : t) :
  startsWith p s = true -> startsWith p (s ++ b) = true.
Proof.
  revert s. induction p as [|a p IH]; intros [|c s] H; simpl in *;
    try reflexivity; try discriminate.
  apply andb_true_iff in H. destruct H as [Hac H]. rewrite Hac. simpl.
  now apply IH.
Qed.

(** An occurrence that starts in [s] and is not within it runs past its
    end. *)
Lemma startsWith_straddle (p s b : t) :
  startsWith p (s ++ b) = true -> startsWith p s = false ->
  length s < length p.
Proof.
  revert s. induction p as [|a p IH]; intros [|c s] H1 H2; simpl in *;
    try discriminate; try lia.
  apply andb_true_iff in H1. destruct H1 as [Hac H1]. rewrite Hac in H2.
  simpl in H2. specialize (IH s H1 H2). lia.
Qed.

Lemma split_go_nonempty (sep : t) (s : t) :
  forall skip cur, split_go sep skip cur s <> [].
Proof.
  induction s as [|c s IH]; intros [|j] cur; simpl; try discriminate.
  - destruct (startsWith sep (c :: s)); [discriminate | apply IH].
  - apply IH.
Qed.

(** A text shorter than the separator is one piece. *)
Lemma split_go_short (sep : t) (s : t) :
  forall cur, length s < length sep -> split_go sep 0 cur s = [rev cur ++ s].
Proof.
  induction s as [|c s IH]; intros cur H; simpl.
  - now rewrite app_nil_r.
  - destruct (startsWith sep (c :: s)) eqn:E.
    + apply startsWith_length in E. lia.
    + rewrite IH by (simpl in H; lia). simpl. now rewrite <- app_assoc.
Qed.

Lemma join_cons (sep a : t) (l : list t) :
  l <> [] -> join sep (a :: l) = a ++ sep ++ join sep l.
Proof. destruct l; [contradiction | reflexivity]. Qed.

Lemma join_split_go (sep : t) :
  sep <> [] ->
  forall s skip cur, join sep (split_go sep skip cur s) = rev cur ++ skipn skip s.
Proof.
  intros Hsep. induction s as [|c s IH]; intros skip cur.
  - destruct skip; simpl; now rewrite ?app_nil_r.
  - destruct skip as [|j]; simpl.
    + destruct (startsWith sep (c :: s)) eqn:E.
      * rewrite join_cons by apply split_go_nonempty. rewrite IH. simpl.
        f_equal. apply startsWith_split in E.
        destruct sep as [|c0 sep]; [contradiction|].
        simpl in E |- *. rewrite Nat.sub_0_r. now rewrite <- E.
      * rewrite IH. simpl. now rewrite <- app_assoc.
    + apply IH.
Qed.

(** The pieces, joined by the separator, are the text. *)
Lemma join_split (sep s : t) : sep <> [] -> join sep (split sep s) = s.
Proof. intro H. unfold split. now rewrite join_split_go. Qed.

(** Splitting a text that goes on: the pieces closed so far stay, and
    the open piece is split again with what follows. *)
Lemma split_go_app (sep : t) (a : t) :
  forall skip cur b,
    skip <= length a ->
    (skip = 0 -> split_go sep 0 [] (rev cur ++ a ++ b) = split_go sep 0 cur (a ++ b)) ->
    (skip <> 0 -> cur = []) ->
    split_go sep skip cur (a ++ b)
    = removelast (split_go sep skip cur a)
      ++ split_go sep 0 [] (last (split_go sep skip cur a) [] ++ b).
Proof.
  induction a as [|c a IH]; intros skip cur b Hskip Hinv Hcur.
  - assert (skip = 0) by (simpl in Hskip; lia). subst skip.
    specialize (Hinv eq_refl). simpl in *. now rewrite Hinv.
  - destruct skip as [|j].
    + specialize (Hinv eq_refl). cbn [app split_go] in *.
      destruct (startsWith sep (c :: a ++ b)) eqn:Ew;
        destruct (startsWith sep (c :: a)) eqn:Ea.
      * pose proof (startsWith_length _ _ Ea) as Hl. simpl in Hl.
        pose proof (@split_go_nonempty sep a (length sep - 1) []) as Hne.
        destruct (split_go sep (length sep - 1) [] a) as [|x l] eqn:Es;
          [contradiction|].
        rewrite IH; [|lia|reflexivity|reflexivity]. rewrite Es.
        cbn [removelast last app]. destruct l; reflexivity.
      * pose proof (@startsWith_straddle sep (c :: a) b Ew Ea) as Hl.
        assert (Es : split_go sep 0 (c :: cur) a = [rev cur ++ c :: a]).
        { rewrite split_go_short by (simpl in Hl; lia). simpl.
          now rewrite <- app_assoc. }
        rewrite Es. cbn [removelast last app]. rewrite <- app_assoc.
        cbn [app]. rewrite Hinv. reflexivity.
      * apply startsWith_app with (b := b) in Ea. cbn [app] in Ea. congruence.
      * apply IH; [lia| |congruence]. intros _.
        cbn [rev]. rewrite <- app_assoc. cbn [app]. exact Hinv.
    + cbn [app split_go]. simpl in Hskip.
      rewrite (Hcur (Nat.neq_succ_0 j)). apply IH; [lia| |reflexivity].
      intros _. reflexivity.
Qed.

Lemma split_app (sep a b : t) :
  split sep (a ++ b)
  = removelast (split sep a) ++ split sep (last (split sep a) [] ++ b).
Proof.
  unfold split. apply split_go_app; [lia| |congruence]. intros _. reflexivity.
Qed.

Lemma split_nonempty (sep s : t) : split sep s <> [].
Proof. apply split_go_nonempty. Qed.

End TextFacts.

(** ** More on the read loop *)

Module DecoderFacts.

Import Str Text TextFacts Normalizer Stream StreamFacts.

Lemma decoder_eq (a b : decoder) :
  buffer a = buffer b ->
  accumulatedContent a = accumulatedContent b ->
  rendered a = rendered b ->
  a = b.
Proof. destruct a, b. simpl. now intros -> -> ->. Qed.

Lemma payloads_app (a b : list Str.t) :
  payloads (a ++ b) = payloads a ++ payloads b.
Proof.
  induction a as [|p a IH]; [reflexivity|]. simpl.
  destruct (payload p); simpl; now rewrite IH.
Qed.

Lemma last_app_nonempty (A : Type) (a b : list A) (d : A) :
  b <> [] -> last (a ++ b) d = last b d.
Proof.
  intro H. induction a as [|x a IH]; [reflexivity|].
  simpl. rewrite IH. destruct (a ++ b) eqn:E; [|reflexivity].
  apply app_eq_nil in E. destruct E. contradiction.
Qed.

(** Two chunks fed one after the other leave the loop where their
    concatenation, fed at once, leaves it. *)
Lemma feed_feed (st : decoder) (c1 c2 : Str.t) :
  feed (feed st c1) c2 = feed st (c1 ++ c2).
Proof.
  destruct (feed_spec st c1) as (B1 & A1 & R1).
  destruct (feed_spec (feed st c1) c2) as (B2 & A2 & R2).
  destruct (feed_spec st (c1 ++ c2)) as (B & A & R).
  rewrite B1 in B2, A2, R2.
  assert (E : split boundary (buffer st ++ c1 ++ c2)
              = removelast (split boundary (buffer st ++ c1))
                ++ split boundary (last (split boundary (buffer st ++ c1)) [] ++ c2))
    by (rewrite app_assoc; apply split_app).
  rewrite E in B, A, R.
  pose proof (@split_nonempty boundary
                (last (split boundary (buffer st ++ c1)) [] ++ c2)) as Hne.
  rewrite last_app_nonempty in B by exact Hne.
  rewrite removelast_app in A, R by exact Hne.
  rewrite payloads_app in A, R.
  apply decoder_eq.
  - now rewrite B2, B.
  - rewrite A2, A, A1, lines_app. now rewrite <- app_assoc.
  - rewrite R2, R, R1, A1, prefixes_app, map_app, <- app_assoc. f_equal. f_equal.
    rewrite map_map. apply map_ext. intro ds. unfold shown.
    now rewrite lines_app, <- app_assoc.
Qed.

Lemma feed_chunks (cs : list Str.t) :
  forall st c, fold_left feed (c :: cs) st = feed st (c ++ concat cs).
Proof.
  induction cs as [|c2 cs IH]; intros st c.
  - simpl. now rewrite app_nil_r.
  - change (fold_left feed (c :: c2 :: cs) st)
      with (fold_left feed (c2 :: cs) (feed st c)).
    rewrite IH, feed_feed. simpl. reflexivity.
Qed.

Lemma feed_concat (chunks : list Str.t) :
  fold_left feed chunks start = feed start (concat chunks).
Proof.
  destruct chunks as [|c cs]; [reflexivity | apply feed_chunks].
Qed.

Lemma read_all_concat (chunks : list Str.t) :
  read_all chunks = read_all [concat chunks].
Proof.
  unfold read_all. cbn [fold_left]. now rewrite feed_concat.
Qed.

(** The state of the loop depends on the stream, not on how the stream
    is cut into chunks. *)
Theorem chunking_is_irrelevant (chunks : list Str.t) :
  fold_left feed chunks start = feed start (concat chunks) /\
  read_all chunks = read_all [concat chunks].
Proof.
  split; [apply feed_concat | apply read_all_concat].
Qed.

(** What the loop has when the stream [s] has been read: the frames are
    the pieces of [s] closed by a blank line, the residual buffer is the
    piece after the last blank line. *)
Lemma feed_whole (s : Str.t) :
  buffer (feed start s) = last (split boundary s) [] /\
  accumulatedContent (feed start s)
  = lines (payloads (removelast (split boundary s))).
Proof.
  destruct (feed_spec start s) as (B & A & _). simpl in B, A. auto.
Qed.

(** The complete frames and the residual buffer, joined by blank lines,
    are the stream read so far: the loop drops no code unit before it
    filters frames. *)
Theorem frames_and_residual_are_the_stream (chunks : list Str.t) :
  join boundary (removelast (split boundary (concat chunks))
                 ++ [buffer (fold_left feed chunks start)])
  = concat chunks.
Proof.
  rewrite (feed_concat chunks).
  rewrite (proj1 (feed_whole (concat chunks))).
  rewrite <- app_removelast_last by apply split_nonempty.
  apply join_split. discriminate.
Qed.

Lemma split_go_absent (sep : Str.t) (s : Str.t) :
  forall cur, occurs sep s = false -> split_go sep 0 cur s = [rev cur ++ s].
Proof.
  induction s as [|c s IH]; intros cur H; simpl in *.
  - now rewrite app_nil_r.
  - apply orb_false_iff in H. destruct H as [H1 H2]. rewrite H1.
    rewrite IH by exact H2. simpl. now rewrite <- app_assoc.
Qed.

(** A stream without a blank line gives no frame: nothing is accumulated
    or shown while it is read, all of it waits in the residual buffer,
    and at the end of the stream the assistant message is given the
    empty content. *)
Theorem unterminated_stream_is_dropped (chunks : list Str.t) :
  occurs boundary (concat chunks) = false ->
  fold_left feed chunks start = mkDecoder (concat chunks) [] [] /\
  read_all chunks = mkDecoder (concat chunks) [] [[]].
Proof.
  intro H.
  assert (E : fold_left feed chunks start = mkDecoder (concat chunks) [] []).
  { rewrite (feed_concat chunks). unfold feed.
    cbn [start buffer accumulatedContent rendered app]. unfold split.
    rewrite split_go_absent by exact H. reflexivity. }
  split; [exact E|]. unfold read_all. rewrite E. reflexivity.
Qed.

Lemma unterminated_stream_is_dropped_witness :
  read_all [str "data: Hel"; str "lo" ++ [LF]]
  = mkDecoder (str "data: Hello" ++ [LF]) [] [[]].
Proof.
  apply (proj2 (@unterminated_stream_is_dropped
                  [str "data: Hel"; str "lo" ++ [LF]] eq_refl)).
Defined.

(** *** Payloads are trimmed *)

Lemma trimStart_last (a : Str.t) (c : ascii) :
  is_space c = false -> trimStart (a ++ [c]) = trimStart a ++ [c].
Proof.
  intro H. induction a as [|x a IH]; simpl.
  - now rewrite H.
  - destruct (is_space x); [exact IH | reflexivity].
Qed.

Lemma trimStart_first (s : Str.t) :
  match trimStart s with
  | [] => True
  | c :: _ => is_space c = false
  end.
Proof.
  induction s as [|x s IH]; simpl; [exact I|].
  destruct (is_space x) eqn:E; [exact IH | exact E].
Qed.

Lemma trimStart_fixed (s : Str.t) :
  match s with [] => True | c :: _ => is_space c = false end ->
  trimStart s = s.
Proof. destruct s as [|c s]; [reflexivity|]. simpl. now intros ->. Qed.

(** Trimming a trimmed text changes nothing. *)
Lemma trim_trim (s : Str.t) : trim (trim s) = trim s.
Proof.
  unfold trim, trimEnd. pose proof (trimStart_first s) as H.
  destruct (trimStart s) as [|c u]; [reflexivity|].
  cbn [rev]. rewrite (@trimStart_last _ c H), rev_app_distr. cbn [rev app].
  rewrite (trimStart_fixed (c :: _)) by exact H.
  cbn [rev]. rewrite rev_involutive.
  rewrite (trimStart_fixed (_ ++ [c])); [now rewrite rev_app_distr|].
  pose proof (trimStart_first (rev u)) as H'.
  destruct (trimStart (rev u)); [exact H | exact H'].
Qed.

(** A payload neither begins nor ends with white space: the white space
    around the text of a frame, and between the marker and the text, is
    lost before the payload is accumulated. *)
Theorem payload_is_trimmed (part d : Str.t) :
  payload part = Some d ->
  trim d = d /\
  match d with [] => True | c :: _ => is_space c = false end /\
  match rev d with [] => True | c :: _ => is_space c = false end.
Proof.
  intro H. apply payload_spec in H. destruct H as (_ & -> & _).
  unfold data_of. generalize (slice 5 (trim part)). intro x.
  split; [apply trim_trim|].
  unfold trim, trimEnd. split.
  - pose proof (trimStart_first x) as H.
    destruct (trimStart x) as [|c u]; [exact I|].
    cbn [rev]. rewrite (@trimStart_last _ c H), rev_app_distr.
    cbn [rev app]. exact H.
  - rewrite rev_involutive. apply trimStart_first.
Qed.

Lemma payload_is_trimmed_witness :
  payload (str "  data:   two words  ") = Some (str "two words") /\
  trim (str "two words") = str "two words".
Proof.
  split; [reflexivity|].
  apply (proj1 (@payload_is_trimmed (str "  data:   two words  ")
                  (str "two words") eq_refl)).
Defined.

End DecoderFacts.

(** ** More on matching and replacement *)

Module ReMore.

Import Re Needs ReFacts.

(** *** A match consumes what its pattern needs *)

(** [advances r]: every match of [r] consumes at least one code unit. *)
Definition advances (r : regex) : bool := needs (fun _ => true) r.

Definition consuming (body : matcher) (nb : bool) : Prop :=
  forall x k z,
    body x k = Some z ->
    exists y, k y = Some z /\ length (rest y) <= length (rest x)
              /\ (nb = true -> length (rest y) < length (rest x)).

Lemma single_consuming (p : ascii -> bool) (nb : bool) :
  consuming (single p) nb.
Proof.
  intros x k z H. unfold single in H. destruct (rest x) as [|c s] eqn:E;
    [discriminate|].
  destruct (p c); [|discriminate].
  eexists. split; [exact H|]. simpl. split; [lia|]. intros _. lia.
Qed.

Lemma req_consuming (body : matcher) (nb : bool) gs greedy k :
  consuming body nb ->
  forall min max x z,
    req body gs greedy k min max x = Some z ->
    exists y, k y = Some z /\ length (rest y) <= length (rest x)
              /\ ((0 <? min) && negb (max_is_zero max) && nb = true ->
                  length (rest y) < length (rest x)).
Proof.
  intros Hb min max x z H. destruct min as [|min].
  - apply req_forward in H.
    + destruct H as (y & E & Hy). exists y. split; [exact E|]. split; [exact Hy|].
      discriminate.
    + intros x' k' z' H'. apply Hb in H'. destruct H' as (y & E & Hy & _).
      now exists y.
  - simpl in H. destruct (max_is_zero max) eqn:Em.
    + exists x. split; [exact H|]. split; [lia|]. simpl. discriminate.
    + apply Hb in H. destruct H as (y & E & Hy & Hs). simpl in Hy, Hs.
      apply req_forward in E.
      * destruct E as (y' & E & Hy'). exists y'. split; [exact E|].
        split; [lia|]. simpl. intro Hn. specialize (Hs Hn). lia.
      * intros x' k' z' H'. apply Hb in H'. destruct H' as (y0 & E0 & Hy0 & _).
        now exists y0.
Qed.

Lemma m_consuming (ml : bool) (r : regex) : consuming (m ml r) (advances r).
Proof.
  unfold advances.
  assert (Still : forall (x : state) (k : state -> option state) z,
             k x = Some z ->
             exists y, k y = Some z /\ length (rest y) <= length (rest x)
                       /\ (false = true -> length (rest y) < length (rest x))).
  { intros x k z H. exists x. split; [exact H|]. split; [lia | discriminate]. }
  induction r as [ | c | | neg items | r1 IH1 r2 IH2 | r1 IH1 r2 IH2
                 | greedy min max r IH | i r IH | r IH | | | ];
    intros x k z H; simpl in H |- *.
  - now apply Still.
  - exact (@single_consuming _ _ x k z H).
  - exact (@single_consuming _ _ x k z H).
  - exact (@single_consuming _ _ x k z H).
  - apply IH1 in H. destruct H as (y & E & Hy & Hs).
    apply IH2 in E. destruct E as (y' & E & Hy' & Hs'). exists y'.
    split; [exact E|]. split; [lia|]. intro Hn. apply orb_true_iff in Hn.
    destruct Hn as [Hn|Hn]; [specialize (Hs Hn) | specialize (Hs' Hn)]; lia.
  - apply orelse_some in H. destruct H as [H|H].
    + apply IH1 in H. destruct H as (y & E & Hy & Hs). exists y.
      split; [exact E|]. split; [exact Hy|]. intro Hn.
      apply andb_true_iff in Hn. now apply Hs.
    + apply IH2 in H. destruct H as (y & E & Hy & Hs). exists y.
      split; [exact E|]. split; [exact Hy|]. intro Hn.
      apply andb_true_iff in Hn. now apply Hs.
  - exact (@req_consuming _ _ _ _ _ IH _ _ _ _ H).
  - apply IH in H. destruct H as (y & E & Hy & Hs). eexists.
    split; [exact E|]. split; [exact Hy | exact Hs].
  - destruct (m ml r x _); [discriminate | now apply Still].
  - unfold assert in H. destruct (at_word_boundary x); [now apply Still | discriminate].
  - unfold assert in H. destruct (at_bol ml x); [now apply Still | discriminate].
  - unfold assert in H. destruct (at_eol ml x); [now apply Still | discriminate].
Qed.

(** A match of a pattern that advances is not empty. *)
Lemma exec_advances (ml : bool) (r : regex) (p : option ascii) (s : Str.t) n cs :
  advances r = true -> exec ml r p s = Some (n, cs) -> 1 <= n <= length s.
Proof.
  intros Ha H. unfold exec in H.
  destruct (m ml r _ _) as [y|] eqn:E; [|discriminate].
  injection H as <- _. apply m_consuming in E.
  destruct E as (y' & E & Hy & Hs). injection E as ->.
  specialize (Hs Ha). simpl in Hy, Hs. lia.
Qed.

(** *** What a replacement is made of *)

Section Kept.

(** A set of code units. *)
Variable Q : ascii -> bool.

Definition all_in (s : Str.t) : Prop := forallb Q s = true.

Definition caps_in (cs : list (nat * Str.t)) : Prop :=
  forall i v, In (i, v) cs -> all_in v.

Definition state_in (x : state) : Prop := all_in (rest x) /\ caps_in (caps x).

Lemma all_in_app (a b : Str.t) : all_in a -> all_in b -> all_in (a ++ b).
Proof. unfold all_in. rewrite forallb_app. now intros -> ->. Qed.

Lemma all_in_firstn (n : nat) (s : Str.t) : all_in s -> all_in (firstn n s).
Proof.
  unfold all_in. revert n. induction s as [|c s IH]; intros [|n] H;
    try reflexivity.
  simpl in *. apply andb_true_iff in H. destruct H as [-> H]. simpl.
  now apply IH.
Qed.

Lemma all_in_tail (c : ascii) (s : Str.t) : all_in (c :: s) -> all_in s.
Proof. unfold all_in. simpl. intro H. apply andb_true_iff in H. tauto. Qed.

Lemma caps_in_filter (f : nat * Str.t -> bool) cs :
  caps_in cs -> caps_in (filter f cs).
Proof. intros H i v Hin. apply filter_In in Hin. now apply (H i). Qed.

Definition keeping (body : matcher) : Prop :=
  forall x k z,
    body x k = Some z -> state_in x ->
    exists y, k y = Some z /\ state_in y.

Lemma clear_in (gs : list nat) (x : state) : state_in x -> state_in (clear_caps gs x).
Proof. intros [H1 H2]. split; [exact H1 | now apply caps_in_filter]. Qed.

Lemma star_keeping (body : matcher) gs greedy k :
  keeping body ->
  forall n max x z,
    star body gs greedy k n max x = Some z -> state_in x ->
    exists y, k y = Some z /\ state_in y.
Proof.
  intro Hb. induction n as [|n IH]; intros max x z H Hx; simpl in H.
  - exists x. split; [now destruct (max_is_zero max) | exact Hx].
  - destruct (max_is_zero max); [now exists x|].
    assert (Hd : body (clear_caps gs x)
                   (fun y => if length (rest y) <? length (rest x)
                             then star body gs greedy k n (dec_max max) y
                             else None) = Some z ->
                 exists y, k y = Some z /\ state_in y).
    { intro E. destruct (Hb _ _ _ E (clear_in gs Hx)) as (y & E' & Hy).
      destruct (length (rest y) <? length (rest x)); [|discriminate].
      exact (IH _ _ _ E' Hy). }
    destruct greedy; apply orelse_some in H; destruct H as [H|H]; auto;
      now exists x.
Qed.

Lemma req_keeping (body : matcher) gs greedy k :
  keeping body ->
  forall min max x z,
    req body gs greedy k min max x = Some z -> state_in x ->
    exists y, k y = Some z /\ state_in y.
Proof.
  intro Hb. induction min as [|min IH]; intros max x z H Hx; simpl in H.
  - exact (@star_keeping _ _ _ _ Hb _ _ _ _ H Hx).
  - destruct (max_is_zero max); [now exists x|].
    destruct (Hb _ _ _ H (clear_in gs Hx)) as (y & E & Hy).
    exact (IH _ _ _ E Hy).
Qed.

Lemma single_keeping (p : ascii -> bool) : keeping (single p).
Proof.
  intros [pv rs cs] k z H [H1 H2]. unfold single in H. simpl in *.
  destruct rs as [|c s]; [discriminate|]. destruct (p c); [|discriminate].
  eexists. split; [exact H|]. split; simpl; [now apply all_in_tail with c | exact H2].
Qed.

Lemma m_keeping (ml : bool) (r : regex) : keeping (m ml r).
Proof.
  induction r as [ | c | | neg items | r1 IH1 r2 IH2 | r1 IH1 r2 IH2
                 | greedy min max r IH | i r IH | r IH | | | ];
    intros x k z H Hx; simpl in H.
  - now exists x.
  - exact (@single_keeping _ x k z H Hx).
  - exact (@single_keeping _ x k z H Hx).
  - exact (@single_keeping _ x k z H Hx).
  - destruct (IH1 _ _ _ H Hx) as (y & E & Hy). exact (IH2 _ _ _ E Hy).
  - apply orelse_some in H.
    destruct H as [H|H]; [exact (IH1 _ _ _ H Hx) | exact (IH2 _ _ _ H Hx)].
  - exact (@req_keeping _ _ _ _ IH _ _ _ _ H Hx).
  - destruct (IH _ _ _ H Hx) as (y & E & [Hy1 Hy2]).
    eexists. split; [exact E|]. split; [exact Hy1|].
    intros j v [Hin|Hin].
    + injection Hin as _ <-. apply all_in_firstn. apply Hx.
    + apply filter_In in Hin. now apply (Hy2 j).
  - destruct (m ml r x _); [discriminate|]. now exists x.
  - unfold assert in H. destruct (at_word_boundary x); [now exists x | discriminate].
  - unfold assert in H. destruct (at_bol ml x); [now exists x | discriminate].
  - unfold assert in H. destruct (at_eol ml x); [now exists x | discriminate].
Qed.

(** The captures of a match in a text of [Q] are texts of [Q]. *)
Lemma exec_keeping (ml : bool) (r : regex) (p : option ascii) (s : Str.t) n cs :
  exec ml r p s = Some (n, cs) -> all_in s -> caps_in cs.
Proof.
  intros H Hs. unfold exec in H.
  destruct (m ml r _ _) as [y|] eqn:E; [|discriminate].
  injection H as _ <-.
  destruct (@m_keeping ml r _ _ _ E) as (y' & E' & Hy).
  - split; [exact Hs | intros i v []].
  - injection E' as ->. apply Hy.
Qed.

Lemma cap_in (i : nat) (f : found) : caps_in (captures f) -> all_in (cap i f).
Proof.
  intro H. unfold cap, get_cap.
  destruct (find (fun p => fst p =? i) (captures f)) as [[j v]|] eqn:E;
    [|reflexivity].
  apply find_some in E. destruct E as [E _]. simpl. now apply (H j).
Qed.

Section ReplaceKept.

Variable T : Type.
Variable ml : bool.
Variable r : regex.
Variable cb : T -> found -> T * Str.t.
(** A property of the state of the replacer. *)
Variable J : T -> Prop.

Hypothesis cb_in :
  forall t f, J t -> all_in (matched f) -> caps_in (captures f) ->
              J (fst (cb t f)) /\ all_in (snd (cb t f)).

(** A replacement in a text of [Q], by a replacer that inserts texts of
    [Q], is a text of [Q]. *)
Lemma replace_go_kept (s : Str.t) :
  forall skip t p,
    J t -> all_in s ->
    J (fst (replace_go ml r cb skip t p s))
    /\ all_in (snd (replace_go ml r cb skip t p s)).
Proof.
  induction s as [|c s IH]; intros skip t p Ht Hs.
  - destruct skip; cbn [replace_go]; [|now split].
    destruct (exec ml r p []) as [[n cs]|] eqn:E; [|now split].
    pose proof (@cb_in t (mkFound (firstn n []) cs) Ht
                  (all_in_firstn n Hs) (@exec_keeping _ _ _ _ _ _ E Hs)) as [H1 H2].
    destruct (cb t _). now split.
  - pose proof (all_in_tail Hs) as Hs'.
    destruct skip as [|j]; cbn [replace_go]; [|now apply IH].
    destruct (exec ml r p (c :: s)) as [[n cs]|] eqn:E.
    + pose proof (@cb_in t (mkFound (firstn n (c :: s)) cs) Ht
                    (all_in_firstn n Hs) (@exec_keeping _ _ _ _ _ _ E Hs)) as [H1 H2].
      destruct (cb t _) as [t1 ins]. cbn [fst snd] in H1, H2.
      destruct n as [|n].
      * destruct (IH 0 t1 (Some c) H1 Hs') as [H3 H4].
        destruct (replace_go ml r cb 0 t1 (Some c) s) as [t2 out].
        cbn [fst snd] in *. split; [exact H3|]. apply all_in_app; [exact H2|].
        unfold all_in in *. simpl. simpl in Hs. apply andb_true_iff in Hs.
        destruct Hs as [-> _]. exact H4.
      * destruct (IH n t1 (Some c) H1 Hs') as [H3 H4].
        destruct (replace_go ml r cb n t1 (Some c) s) as [t2 out].
        cbn [fst snd] in *. split; [exact H3 | now apply all_in_app].
    + destruct (IH 0 t (Some c) Ht Hs') as [H3 H4].
      destruct (replace_go ml r cb 0 t (Some c) s) as [t2 out].
      cbn [fst snd] in *. split; [exact H3|].
      unfold all_in in *. simpl. simpl in Hs. apply andb_true_iff in Hs.
      destruct Hs as [-> _]. exact H4.
Qed.

End ReplaceKept.

Lemma substitute_kept (ngroups : nat) (f : found) :
  all_in (matched f) -> caps_in (captures f) ->
  forall n tpl, length tpl <= n -> all_in tpl -> all_in (substitute ngroups tpl f).
Proof.
  intros Hm Hc. induction n as [|n IH]; intros tpl Hl Ht.
  - destruct tpl; [reflexivity | simpl in Hl; lia].
  - destruct tpl as [|c tl]; [reflexivity|]. pose proof (all_in_tail Ht) as Htl.
    assert (Hc' : Q c = true)
      by (unfold all_in in Ht; simpl in Ht; apply andb_true_iff in Ht; tauto).
    assert (Hcons : forall u, all_in u -> all_in (c :: u))
      by (intros u Hu; unfold all_in in *; simpl; now rewrite Hc').
    simpl in Hl. cbn [substitute].
    destruct (Ascii.eqb c "$") eqn:Ec.
    + apply Ascii.eqb_eq in Ec. subst c.
      destruct tl as [|d tl']; [now apply Hcons|].
      pose proof (all_in_tail Htl) as Htl'. simpl in Hl.
      destruct (Ascii.eqb d "$").
      * apply Hcons. apply IH; [lia | exact Htl'].
      * destruct (Ascii.eqb d "&").
        -- apply all_in_app; [exact Hm|]. apply IH; [lia | exact Htl'].
        -- destruct (Str.in_range 49 57 d && (Str.code d - 48 <=? ngroups)).
           ++ apply all_in_app; [now apply cap_in|]. apply IH; [lia | exact Htl'].
           ++ apply Hcons. apply IH; [simpl; lia | exact Htl].
    + apply Hcons. apply IH; [lia | exact Htl].
Qed.

(** A replacement by a template of [Q] in a text of [Q] is a text of [Q]. *)
Lemma replace_kept (ml : bool) (r : regex) (tpl s : Str.t) :
  all_in tpl -> all_in s -> all_in (replace ml r tpl s).
Proof.
  intros Ht Hs. unfold replace, replace_with.
  apply (@replace_go_kept unit ml r _ (fun _ => True)); [|exact I|exact Hs].
  intros t f _ Hm Hc. split; [exact I|]. cbn [snd].
  now apply substitute_kept with (n := length tpl).
Qed.

End Kept.

End ReMore.

(** ** More on the text normalizer *)

Module NormalizerMore.

Import Re Needs ReFacts ReMore Normalizer NormalizerFacts.

(** *** No carriage return survives *)

Definition not_cr (c : ascii) : bool := negb (Ascii.eqb c CR).

(** The table holds texts of [Q]. *)
Definition table_in (Q : ascii -> bool) (tbl : table) : Prop :=
  Forall (all_in Q) tbl.

Lemma all_in_forall (Q : ascii -> bool) (s : Str.t) :
  all_in Q s <-> forall c, In c s -> Q c = true.
Proof. unfold all_in. apply forallb_forall. Qed.

Lemma all_in_weaken (Q R : ascii -> bool) (s : Str.t) :
  (forall c, Q c = true -> R c = true) -> all_in Q s -> all_in R s.
Proof.
  intros H Hs. apply all_in_forall. intros c Hc. apply H.
  now apply (proj1 (all_in_forall Q s) Hs).
Qed.

Lemma trimStart_in (Q : ascii -> bool) (s : Str.t) :
  all_in Q s -> all_in Q (Str.trimStart s).
Proof.
  induction s as [|c s IH]; intro H; simpl; [reflexivity|].
  destruct (Str.is_space c); [apply IH; now apply all_in_tail with c | exact H].
Qed.

Lemma rev_in (Q : ascii -> bool) (s : Str.t) : all_in Q s -> all_in Q (rev s).
Proof.
  intro H. apply all_in_forall. intros c Hc. apply in_rev in Hc.
  now apply (proj1 (all_in_forall Q s) H).
Qed.

Lemma trim_in (Q : ascii -> bool) (s : Str.t) :
  all_in Q s -> all_in Q (Str.trim s).
Proof.
  intro H. unfold Str.trim, Str.trimEnd.
  now apply rev_in, trimStart_in, rev_in, trimStart_in.
Qed.

Lemma token_in (Q : ascii -> bool) (n : nat) :
  (forall c, Str.is_digit c = true -> Q c = true) ->
  all_in Q (str "__LATEX_") -> all_in Q (str "__") ->
  all_in Q (token n).
Proof.
  intros Hd H1 H2. unfold token.
  apply all_in_app; [exact H1|]. apply all_in_app; [|exact H2].
  apply (@all_in_weaken Str.is_digit Q); [exact Hd | apply decimal_digits].
Qed.

Lemma lookup_in (Q : ascii -> bool) (tbl : table) (index : Str.t) :
  all_in Q (str "undefined") -> table_in Q tbl -> all_in Q (lookup tbl index).
Proof.
  intros Hu Ht. destruct (lookup_total tbl index) as [H|H].
  - now rewrite <- H.
  - unfold table_in in Ht. rewrite Forall_forall in Ht. now apply Ht.
Qed.

Lemma digit_not_cr (c : ascii) : Str.is_digit c = true -> not_cr c = true.
Proof.
  intro H. unfold not_cr. destruct (Ascii.eqb c CR) eqn:E; [|reflexivity].
  apply Ascii.eqb_eq in E. subst c. discriminate.
Qed.

Lemma protect_in (pre v : Str.t) (tbl : table) :
  table_in not_cr tbl -> all_in not_cr pre -> all_in not_cr v ->
  table_in not_cr (fst (protect pre v tbl))
  /\ all_in not_cr (snd (protect pre v tbl)).
Proof.
  intros Ht Hp Hv. unfold protect. cbn [fst snd]. split.
  - apply Forall_app. split; [exact Ht | now constructor].
  - apply all_in_app; [exact Hp|].
    apply token_in; [apply digit_not_cr | reflexivity | reflexivity].
Qed.

Ltac kept_text :=
  repeat first
    [ assumption
    | reflexivity
    | apply all_in_app
    | apply cap_in ].

Lemma protect_all_in (t : Str.t) :
  all_in not_cr t ->
  table_in not_cr (fst (protect_all t)) /\ all_in not_cr (snd (protect_all t)).
Proof.
  intro Ht. unfold protect_all, replace_with.
  destruct (@replace_go_kept not_cr _ false re_math cb_math (table_in not_cr))
    with (s := t) (skip := 0) (t := @nil Str.t) (p := @None ascii) as [J1 T1];
    [| constructor | exact Ht |].
  { intros tbl f Hj Hm Hc. apply protect_in; kept_text. }
  destruct (replace_go false re_math cb_math 0 [] None t) as [tbl1 t1].
  cbn [fst snd] in J1, T1.
  destruct (@replace_go_kept not_cr _ false re_malformed cb_malformed
              (table_in not_cr))
    with (s := t1) (skip := 0) (t := tbl1) (p := @None ascii) as [J2 T2];
    [| exact J1 | exact T1 |].
  { intros tbl f Hj Hm Hc. apply protect_in; kept_text. }
  destruct (replace_go false re_malformed cb_malformed 0 tbl1 None t1) as [tbl2 t2].
  cbn [fst snd] in J2, T2.
  destruct (@replace_go_kept not_cr _ false re_command cb_command
              (table_in not_cr))
    with (s := t2) (skip := 0) (t := tbl2) (p := @None ascii) as [J3 T3];
    [| exact J2 | exact T2 |].
  { intros tbl f Hj Hm Hc. apply protect_in; kept_text. }
  destruct (replace_go false re_command cb_command 0 tbl2 None t2) as [tbl3 t3].
  cbn [fst snd] in J3, T3.
  apply (@replace_go_kept not_cr _ false re_quantum cb_quantum (table_in not_cr));
    [| exact J3 | exact T3].
  intros tbl f Hj Hm Hc. apply protect_in; kept_text.
Qed.

Lemma exec_eol_cr (p : option ascii) (s : Str.t) :
  exec false re_eol p (CR :: s) <> None.
Proof.
  unfold exec, re_eol. rewrite m_alt.
  destruct (m false (Seq (Chr CR) (Chr LF)) _ _); [discriminate|].
  cbn [orelse]. rewrite m_chr. discriminate.
Qed.

(** After the line endings are normalized no carriage return is left. *)
Lemma eol_go_in (s : Str.t) :
  forall skip (t : unit) p,
    all_in not_cr
      (snd (replace_go false re_eol
              (fun (t : unit) f => (t, substitute (length (groups re_eol)) [LF] f))
              skip t p s)).
Proof.
  induction s as [|c s IH]; intros skip t p.
  - destruct skip; cbn [replace_go]; [|reflexivity].
    destruct (exec false re_eol p []) as [[n cs]|] eqn:E; [|reflexivity].
    apply exec_advances in E; [simpl in E; lia | reflexivity].
  - destruct skip as [|j]; cbn [replace_go]; [|apply IH].
    destruct (exec false re_eol p (c :: s)) as [[n cs]|] eqn:E.
    + assert (Hn : 1 <= n <= length (c :: s))
        by (apply exec_advances in E; [exact E | reflexivity]).
      destruct n as [|n]; [lia|].
      specialize (IH n t (Some c)).
      destruct (replace_go false re_eol _ n t (Some c) s) as [t2 out].
      cbn [snd] in *. apply all_in_app; [reflexivity | exact IH].
    + specialize (IH 0 t (Some c)).
      destruct (replace_go false re_eol _ 0 t (Some c) s) as [t2 out].
      cbn [snd] in *. unfold all_in in *. cbn [forallb]. rewrite IH.
      unfold not_cr. destruct (Ascii.eqb c CR) eqn:Ec; [|reflexivity].
      apply Ascii.eqb_eq in Ec. subst c. now destruct (exec_eol_cr p s).
Qed.

Lemma eol_in (s : Str.t) : all_in not_cr (replace false re_eol [LF] s).
Proof. unfold replace, replace_with. apply eol_go_in. Qed.

Lemma format_in (t : Str.t) : all_in not_cr t -> all_in not_cr (format t).
Proof.
  intro H. unfold format.
  repeat (apply replace_kept; [reflexivity|]).
  apply trim_in.
  repeat (apply replace_kept; [reflexivity|]).
  unfold replace_with.
  apply (@replace_go_kept not_cr unit false re_url cb_url (fun _ => True));
    [| exact I |].
  { intros u f _ Hm Hc. split; [exact I|]. unfold cb_url. cbn [snd].
    apply all_in_app; now apply cap_in. }
  repeat (apply replace_kept; [reflexivity|]).
  exact H.
Qed.

Lemma restore_in (tbl : table) (t : Str.t) :
  table_in not_cr tbl -> all_in not_cr t -> all_in not_cr (restore tbl t).
Proof.
  intros Hj Ht. unfold restore, replace_with.
  apply (@replace_go_kept not_cr _ false re_token cb_restore
           (fun tbl' => tbl' = tbl)); [| reflexivity | exact Ht].
  intros tbl' f -> Hm Hc. split; [reflexivity|]. unfold cb_restore. cbn [snd].
  now apply lookup_in.
Qed.

Lemma finish_in (t : Str.t) : all_in not_cr t -> all_in not_cr (finish t).
Proof.
  intro H. unfold finish. repeat (apply replace_kept; [reflexivity|]). exact H.
Qed.

(** The text [preprocessText] returns holds no carriage return: the
    second step turns every ["\r\n"] and every ["\r"] into a line feed,
    and no later step brings one back, whatever was stored in the table. *)
Theorem no_carriage_return (v : jsval) :
  forallb not_cr (preprocessText v) = true.
Proof.
  destruct v as [|[|c s]]; try reflexivity.
  cbn [preprocessText]. unfold normalize.
  pose proof (eol_in (comma_cleanup (defragment (c :: s)))) as H.
  destruct (protect_all_in H) as [J T].
  destruct (protect_all _) as [tbl t]. cbn [fst snd] in J, T.
  apply finish_in, restore_in; [exact J|]. now apply format_in.
Qed.

(** *** A message of white space only *)

Definition not_space (c : ascii) : bool := negb (Str.is_space c).

Lemma spaces_clean (s : Str.t) : all_in Str.is_space s -> clean not_space s.
Proof.
  intro H. unfold clean. apply Forall_forall. intros c Hc.
  unfold not_space. now rewrite (proj1 (all_in_forall _ s) H c Hc).
Qed.

(** The patterns that cannot match in white space. *)
Lemma patterns_need_text :
  forallb (needs not_space)
    [re_spaced; re_comma; re_math; re_malformed; re_command; re_quantum;
     re_bold; re_colon_math; re_url] = true.
Proof. vm_compute. reflexivity. Qed.

Ltac need_text :=
  match goal with
  | |- needs not_space ?r = true =>
      let H := fresh in
      pose proof patterns_need_text as H;
      rewrite forallb_forall in H; apply H; simpl; tauto
  end.

Lemma trimStart_spaces (s : Str.t) : all_in Str.is_space s -> Str.trimStart s = [].
Proof.
  induction s as [|c s IH]; intro H; [reflexivity|].
  unfold all_in in H. simpl in H. apply andb_true_iff in H. destruct H as [Hc H].
  simpl. rewrite Hc. now apply IH.
Qed.

Lemma trim_spaces (s : Str.t) : all_in Str.is_space s -> Str.trim s = [].
Proof. intro H. unfold Str.trim. now rewrite trimStart_spaces. Qed.

(** The soft-join replacements put a space for a line feed. *)
Lemma join_kept (r : regex) (s : Str.t) :
  1 <= length (groups r) ->
  all_in Str.is_space s ->
  all_in Str.is_space (replace false r (str "$1 ") s).
Proof.
  intros Hg Hs. unfold replace, replace_with.
  apply (@replace_go_kept Str.is_space unit false r _ (fun _ => True));
    [| exact I | exact Hs].
  intros u f _ Hm Hc. split; [exact I|]. cbn [snd].
  destruct (length (groups r)) as [|n]; [lia|].
  change (substitute (S n) (str "$1 ") f) with (cap 1 f ++ str " ").
  apply all_in_app; [now apply cap_in | reflexivity].
Qed.

Lemma blank_normalized (s : Str.t) :
  forallb Str.is_space s = true -> preprocessText (JString s) = [].
Proof.
  intro H. destruct s as [|c s]; [reflexivity|]. cbn [preprocessText].
  remember (c :: s) as t eqn:Et. clear Et c s.
  pose proof (spaces_clean H) as Hc.
  unfold normalize, comma_cleanup, defragment.
  rewrite (@replace_clean not_space _ re_spaced _ t) by (first [need_text | exact Hc]).
  rewrite (@replace_clean not_space _ re_comma _ t) by (first [need_text | exact Hc]).
  assert (H1 : all_in Str.is_space (replace false re_eol [LF] t))
    by (apply replace_kept; [reflexivity | exact H]).
  remember (replace false re_eol [LF] t) as t1 eqn:Et1. clear Et1.
  pose proof (spaces_clean H1) as Hc1.
  unfold protect_all.
  rewrite (@replace_with_clean not_space _ _ re_math _ _ t1)
    by (first [need_text | exact Hc1]).
  rewrite (@replace_with_clean not_space _ _ re_malformed _ _ t1)
    by (first [need_text | exact Hc1]).
  rewrite (@replace_with_clean not_space _ _ re_command _ _ t1)
    by (first [need_text | exact Hc1]).
  rewrite (@replace_with_clean not_space _ _ re_quantum _ _ t1)
    by (first [need_text | exact Hc1]).
  unfold format.
  rewrite (@replace_clean not_space _ re_bold _ t1) by (first [need_text | exact Hc1]).
  assert (H2 : all_in Str.is_space (replace false re_join1 (str "$1 ") t1))
    by (apply join_kept; [cbn; lia | exact H1]).
  remember (replace false re_join1 (str "$1 ") t1) as t2 eqn:Et2. clear Et2.
  pose proof (spaces_clean H2) as Hc2.
  rewrite (@replace_clean not_space _ re_colon_math _ t2)
    by (first [need_text | exact Hc2]).
  rewrite (@replace_with_clean not_space _ _ re_url _ _ t2)
    by (first [need_text | exact Hc2]).
  cbn [snd].
  assert (H3 : all_in Str.is_space
                 (replace false re_join2 (str "$1 ")
                    (replace false re_blank [LF; LF] t2))).
  { apply join_kept; [cbn; lia|]. apply replace_kept; [reflexivity | exact H2]. }
  rewrite (trim_spaces H3). vm_compute. reflexivity.
Qed.

(** A text of white space only is normalized to the empty string. *)
Theorem blank_message_is_empty (s : Str.t) :
  forallb Str.is_space s = true -> preprocessText (JString s) = [].
Proof.
  apply blank_normalized.
Qed.

Lemma blank_message_is_empty_witness :
  preprocessText (JString ([" "; LF; CR; LF; " "; "009"; LF; LF; LF]%char)) = [].
Proof.
  apply (@blank_message_is_empty ([" "; LF; CR; LF; " "; "009"; LF; LF; LF]%char)).
  reflexivity.
Defined.

(** *** Never three line feeds in a row *)

(** The number of line feeds a text begins with. *)
Fixpoint lead (s : Str.t) : nat :=
  match s with
  | c :: s' => if Ascii.eqb LF c then S (lead s') else 0
  | [] => 0
  end.

Definition three_lf : Str.t := [LF; LF; LF].

Lemma lead_split (s : Str.t) : s = repeat LF (lead s) ++ skipn (lead s) s.
Proof.
  induction s as [|c s IH]; [reflexivity|]. cbn [lead].
  destruct (Ascii.eqb LF c) eqn:E; [|reflexivity].
  apply Ascii.eqb_eq in E. subst c. cbn [repeat skipn app]. now rewrite <- IH.
Qed.

Lemma lead_rest (s : Str.t) :
  match skipn (lead s) s with
  | [] => True
  | c :: _ => Ascii.eqb LF c = false
  end.
Proof.
  induction s as [|c s IH]; [exact I|]. cbn [lead].
  destruct (Ascii.eqb LF c) eqn:E; [exact IH | exact E].
Qed.

Lemma lead_skipn (s : Str.t) : lead (skipn (lead s) s) = 0.
Proof.
  pose proof (lead_rest s) as H. destruct (skipn (lead s) s) as [|c u];
    [reflexivity|]. cbn [lead]. now rewrite H.
Qed.

Lemma starts_three (s : Str.t) :
  Str.startsWith three_lf s = (3 <=? lead s).
Proof.
  unfold three_lf.
  destruct s as [|c1 [|c2 [|c3 s]]]; cbn [Str.startsWith lead];
    repeat match goal with
           | |- context [Ascii.eqb LF ?c] => destruct (Ascii.eqb LF c)
           end; reflexivity.
Qed.

Lemma req_step (body : matcher) gs greedy k (min : nat) (x : state) :
  req body gs greedy k (S min) None x
  = body (clear_caps gs x) (fun y => req body gs greedy k min None y).
Proof. reflexivity. Qed.

Lemma forallb_repeat (n : nat) : forallb (Ascii.eqb LF) (repeat LF n) = true.
Proof. induction n; [reflexivity | exact IHn]. Qed.

(** [\n{3,}] at a position matches when three or more line feeds begin
    there, and then takes them all. *)
Lemma exec_blank (p : option ascii) (s : Str.t) :
  exec false re_blank p s
  = if 3 <=? lead s then Some (lead s, []) else None.
Proof.
  unfold exec, re_blank, at_least. cbn [m groups].
  rewrite req_step, clear_none.
  destruct s as [|c1 s]; [reflexivity|]. cbn [lead].
  change (m false (Chr LF)) with (single (Ascii.eqb LF)).
  unfold single at 1. cbn [rest caps].
  destruct (Ascii.eqb LF c1) eqn:E1; [|reflexivity].
  rewrite req_step, clear_none.
  destruct s as [|c2 s]; [reflexivity|]. cbn [lead].
  unfold single at 1. cbn [rest caps].
  destruct (Ascii.eqb LF c2) eqn:E2; [|reflexivity].
  rewrite req_step, clear_none.
  destruct s as [|c3 s]; [reflexivity|]. cbn [lead].
  unfold single at 1. cbn [rest caps].
  destruct (Ascii.eqb LF c3) eqn:E3; [|reflexivity].
  cbn [req rest Nat.leb].
  pose proof (lead_split s) as Hs. pose proof (lead_rest s) as Hr.
  remember (lead s) as n eqn:En. remember (skipn n s) as tl eqn:Etl.
  clear En Etl. subst s.
  rewrite (@star_run (Ascii.eqb LF) (fun y => Some y) tl Hr (repeat LF n) _
             (Some c3) [] (forallb_repeat n) (le_n _)) by discriminate.
  cbn [rest caps length]. f_equal. f_equal.
  rewrite length_app, repeat_length. lia.
Qed.

Lemma no_three_cons (c : ascii) (s : Str.t) :
  Text.occurs three_lf s = false ->
  lead (c :: s) < 3 ->
  Text.occurs three_lf (c :: s) = false.
Proof.
  intros H Hl. cbn [Text.occurs]. rewrite H, starts_three.
  destruct (3 <=? lead (c :: s)) eqn:E; [|reflexivity].
  apply Nat.leb_le in E. lia.
Qed.

Lemma blank_go (s : Str.t) :
  forall skip (t : unit) p,
    let out := snd (replace_go false re_blank
                      (fun (t : unit) f =>
                         (t, substitute (length (groups re_blank)) [LF; LF] f))
                      skip t p s) in
    Text.occurs three_lf out = false /\ lead out <= lead (skipn skip s).
Proof.
  induction s as [|c s IH]; intros skip t p.
  - destruct skip; cbn [replace_go]; rewrite ?exec_blank; cbn; split;
      first [reflexivity | lia].
  - destruct skip as [|j]; cbn [replace_go]; [|apply IH].
    rewrite exec_blank. destruct (3 <=? lead (c :: s)) eqn:E.
    + apply Nat.leb_le in E. cbv zeta.
      change (substitute (length (groups re_blank)) [LF; LF]
                (mkFound (firstn (lead (c :: s)) (c :: s)) []))
        with [LF; LF].
      destruct (lead (c :: s)) as [|n] eqn:El; [lia|].
      destruct (IH n t (Some c)) as [H1 H2].
      assert (Hz : lead (skipn n s) = 0).
      { pose proof (lead_skipn (c :: s)) as Hk. rewrite El in Hk. exact Hk. }
      destruct (replace_go false re_blank _ n t (Some c) s) as [t2 out].
      cbn [snd] in *. rewrite Hz in H2. cbn [skipn app]. split.
      * apply no_three_cons.
        -- apply no_three_cons; [exact H1|]. cbn [lead].
           rewrite Ascii.eqb_refl. lia.
        -- cbn [lead]. rewrite !Ascii.eqb_refl. lia.
      * cbn [skipn]. rewrite El. cbn [lead]. rewrite !Ascii.eqb_refl. lia.
    + apply Nat.leb_gt in E. cbv zeta.
      destruct (IH 0 t (Some c)) as [H1 H2].
      destruct (replace_go false re_blank _ 0 t (Some c) s) as [t2 out].
      cbn [snd skipn] in *. cbn [lead] in E |- *. revert E.
      destruct (Ascii.eqb LF c) eqn:Ec; intro E; split;
        try (apply no_three_cons; [exact H1|]; cbn [lead]; rewrite Ec); lia.
Qed.

(** The text [preprocessText] returns never holds three line feeds in a
    row: the last step leaves at most two where three or more stood. *)
Theorem never_three_line_feeds (v : jsval) :
  Text.occurs [LF; LF; LF] (preprocessText v) = false.
Proof.
  destruct v as [|[|c s]]; try reflexivity.
  cbn [preprocessText]. unfold normalize.
  destruct (protect_all _) as [tbl t]. unfold finish, replace at 1, replace_with.
  apply blank_go.
Qed.

End NormalizerMore.

(** ** The chat component *)

Module ChatFacts.

Import Str Text TextFacts Normalizer Conversation Chat.

Lemma join_firstn (sep : Str.t) (l : list Str.t) :
  forall n, exists rest, join sep l = join sep (firstn n l) ++ rest.
Proof.
  induction l as [|a l IH]; intro n.
  - exists []. now destruct n.
  - destruct n as [|n]; [now exists (join sep (a :: l))|].
    destruct l as [|b l];
      [exists []; cbn [firstn]; rewrite firstn_nil; cbn [join]; now rewrite app_nil_r|].
    destruct (IH n) as [rest Hr].
    destruct n as [|n].
    + exists (sep ++ join sep (b :: l)). reflexivity.
    + exists rest. cbn [firstn] in *.
      change (join sep (a :: b :: l)) with (a ++ sep ++ join sep (b :: l)).
      change (join sep (a :: b :: firstn n l))
        with (a ++ sep ++ join sep (b :: firstn n l)).
      rewrite Hr. now rewrite <- !app_assoc.
Qed.

(** The title is never longer than forty-three code units; it is either
    a beginning of the trimmed message, of at most forty code units, or
    the first forty code units of the trimmed message followed by three
    dots. *)
Theorem title_is_a_bounded_prefix (msg : Str.t) :
  length (generateChatTitle msg) <= 43 /\
  ((length (generateChatTitle msg) <= 40 /\
    exists rest, trim msg = generateChatTitle msg ++ rest) \/
   (generateChatTitle msg = firstn 40 (trim msg) ++ str "..." /\
    40 < length (trim msg))).
Proof.
  unfold generateChatTitle, substring0.
  destruct (join_firstn (str " ") (split (str " ") (trim msg)) 6) as [rest Hr].
  rewrite join_split in Hr by discriminate.
  remember (join (str " ") (firstn 6 (split (str " ") (trim msg)))) as words.
  destruct (40 <? length words) eqn:E.
  - apply Nat.ltb_lt in E. split.
    + rewrite length_app, length_firstn.
      change (length (str "...")) with 3. lia.
    + right. rewrite Hr. split.
      * rewrite firstn_app.
        replace (40 - length words) with 0 by lia.
        simpl. now rewrite app_nil_r.
      * rewrite length_app. lia.
  - apply Nat.ltb_ge in E. split; [lia|]. left. split; [lia|]. now exists rest.
Qed.

(** *** Submitting *)

(** A message of white space only, or any message while a response is
    awaited, is not sent: the state stays as it is and no request is
    made. *)
Theorem blank_or_busy_is_not_sent (fresh_id now : Str.t) (l : ref) (c : state) :
  forallb is_space (message c) = true \/ isLoading c = true ->
  handleSendMessage fresh_id now l c = (c, None).
Proof.
  intros [H|H]; unfold handleSendMessage.
  - now rewrite (NormalizerMore.blank_normalized _ H).
  - rewrite H, orb_true_r. reflexivity.
Qed.

Lemma blank_or_busy_is_not_sent_witness :
  handleSendMessage (str "session_1") (str "t") 0
    (mkState ([" "; LF; " "]%char) (fun _ => None) [] None false false
             (str "New Chat") [] false)
  = (mkState ([" "; LF; " "]%char) (fun _ => None) [] None false false
             (str "New Chat") [] false, None).
Proof.
  apply blank_or_busy_is_not_sent. left. reflexivity.
Defined.

(** Whatever a submission did, a second submission on the state it
    leaves makes no request and changes nothing: the input box is empty
    and a response is awaited, or the first was not sent either. *)
Theorem second_submission_sends_nothing
        (id1 now1 id2 now2 : Str.t) (l1 l2 : ref) (c : state) :
  handleSendMessage id2 now2 l2 (fst (handleSendMessage id1 now1 l1 c))
  = (fst (handleSendMessage id1 now1 l1 c), None).
Proof.
  unfold handleSendMessage at 2 3.
  destruct (falsy (Some (preprocessText (JString (message c)))) || isLoading c)
    eqn:E; cbn [fst].
  - unfold handleSendMessage. now rewrite E.
  - unfold handleSendMessage. cbn [isLoading]. now rewrite orb_true_r.
Qed.

(** When a message is sent, the text in the request is the normalized
    input, the same text is the content of the user message put last in
    the conversation, the messages before it read as before, the input
    box is emptied and the component waits for the response. *)
Theorem sent_text_is_shown_text (fresh_id now : Str.t) (l : ref) (c : state) :
  isLoading c = false ->
  preprocessText (JString (message c)) <> [] ->
  ~ In l (messages c) ->
  exists c' r,
    handleSendMessage fresh_id now l c = (c', Some r) /\
    body_message r = preprocessText (JString (message c)) /\
    view (objects c') (messages c')
    = view (objects c) (messages c)
      ++ [Some (mkMessage (str "user") (preprocessText (JString (message c)))
                          (isWebSearch c) now)] /\
    message c' = [] /\ isLoading c' = true.
Proof.
  intros Hl Hm Hn. unfold handleSendMessage. rewrite Hl, orb_false_r.
  destruct (preprocessText (JString (message c))) as [|a t] eqn:E;
    [contradiction|].
  cbn [falsy]. eexists. eexists. split; [reflexivity|].
  cbn [body_message objects messages message isLoading].
  split; [reflexivity|]. split; [|split; reflexivity].
  unfold view. rewrite map_app. f_equal.
  - apply ConversationFacts.view_update. exact Hn.
  - cbn [map]. unfold update. now rewrite Nat.eqb_refl.
Qed.

Lemma sent_text_is_shown_text_witness :
  exists c' r,
    handleSendMessage (str "session_1") (str "t") 0
      (mkState (str " Hi there ") (fun _ => None) [] None false false
               (str "New Chat") [] false)
    = (c', Some r) /\
    body_message r = str "Hi there" /\
    view (objects c') (messages c')
    = [Some (mkMessage (str "user") (str "Hi there") false (str "t"))].
Proof.
  destruct (@sent_text_is_shown_text (str "session_1") (str "t") 0
              (mkState (str " Hi there ") (fun _ => None) [] None false false
                       (str "New Chat") [] false))
    as (c' & r & H1 & H2 & H3 & _).
  - reflexivity.
  - vm_compute. discriminate.
  - simpl. tauto.
  - exists c', r. split; [exact H1|]. split; [exact H2 | exact H3].
Defined.

(** *** Showing the streamed text *)

(** The message [m] with the content [text]. *)
Definition with_content (m : Conversation.message) (text : Str.t)
  : Conversation.message :=
  mkMessage (role m) text (is_web_search m) (timestamp m).

Lemma set_content_last (l' : ref) (text : Str.t) (h : store)
      (init : list ref) (l : ref) (m : Conversation.message) :
  h l = Some m -> role m = str "assistant" ->
  set_content l' text h (init ++ [l])
  = Some (update h l' (with_content m text), init ++ [l']).
Proof.
  intros Hl Hr. unfold set_content, with_content.
  now rewrite ConversationFacts.last_some, Hl, Hr, StrFacts.eqb_refl,
    removelast_last.
Qed.

(** An update of the streamed message replaces the last message of the
    conversation by a new object with the new content and the other
    fields of the old one; it changes no object that existed, so the
    messages before the last read as before.  When the last message is
    not an assistant message nothing changes, and on an empty
    conversation the update fails. *)
Theorem update_replaces_the_last_message
        (l' : ref) (text : Str.t) (h : store) (init : list ref) (l : ref)
        (m : Conversation.message) :
  h l = Some m ->
  ~ In l' init ->
  (role m = str "assistant" ->
   exists h',
     set_content l' text h (init ++ [l]) = Some (h', init ++ [l']) /\
     view h' (init ++ [l']) = view h init ++ [Some (with_content m text)] /\
     (forall r, r <> l' -> h' r = h r)) /\
  (role m <> str "assistant" ->
   set_content l' text h (init ++ [l]) = Some (h, init ++ [l])) /\
  set_content l' text h [] = None.
Proof.
  intros Hl Hn. split; [|split; [|reflexivity]].
  - intro Hr. eexists.
    split; [exact (@set_content_last l' text h init l m Hl Hr)|]. split.
    + unfold view. rewrite map_app. f_equal.
      * now apply ConversationFacts.view_update.
      * cbn [map]. unfold update. now rewrite Nat.eqb_refl.
    + intros r Hne. unfold update. apply Nat.eqb_neq in Hne. now rewrite Hne.
  - intro Hr. unfold set_content.
    rewrite ConversationFacts.last_some, Hl.
    apply StrFacts.eqb_neq in Hr. now rewrite Hr.
Qed.

Lemma update_replaces_the_last_message_witness :
  set_content 2 (str "Hello")
    (ConversationFacts.two_messages []) [0; 1]
  = Some (update (ConversationFacts.two_messages []) 2
            (mkMessage (str "assistant") (str "Hello") false (str "t1")),
          [0; 2]).
Proof.
  assert (Hn : ~ In 2 [0]) by (simpl; intros [H|[]]; discriminate).
  destruct (proj1 (@update_replaces_the_last_message 2 (str "Hello")
                     (ConversationFacts.two_messages []) [0] 1
                     (mkMessage (str "assistant") [] false (str "t1"))
                     eq_refl Hn) eq_refl)
    as (h' & H1 & _ & _).
  rewrite (@set_content_last 2 (str "Hello") (ConversationFacts.two_messages [])
             [0] 1 (mkMessage (str "assistant") [] false (str "t1"))
             eq_refl eq_refl) in H1.
  injection H1 as <-. reflexivity.
Defined.

Lemma last_cons (A : Type) (l : list A) :
  forall a d, last (a :: l) d = last l a.
Proof.
  induction l as [|b l IH]; intros a d; [reflexivity|].
  change (last (a :: b :: l) d) with (last (b :: l) d).
  now rewrite !IH.
Qed.

(** The updates of one stream, run in order, leave the last of the texts
    as the content of the assistant message. *)
Lemma set_contents_last (texts : list Str.t) :
  forall (fresh : list ref) (h : store) (init : list ref) (l : ref)
         (m : Conversation.message) (text : Str.t),
    h l = Some m -> role m = str "assistant" ->
    length (text :: texts) <= length fresh ->
    (forall r, In r fresh -> ~ In r init) ->
    exists h' l',
      set_contents fresh (text :: texts) h (init ++ [l]) = Some (h', init ++ [l'])
      /\ view h' (init ++ [l'])
         = view h init ++ [Some (with_content m (last texts text))].
Proof.
  induction texts as [|t2 texts IH]; intros fresh h init l m text Hl Hr Hlen Hf;
    (destruct fresh as [|l1 fresh]; [simpl in Hlen; lia|]);
    cbn [set_contents]; rewrite (@set_content_last l1 text h init l m Hl Hr).
  - eexists. eexists. split; [reflexivity|].
    unfold view. rewrite map_app. f_equal.
    + apply ConversationFacts.view_update. apply Hf. now left.
    + cbn [map last]. unfold update. now rewrite Nat.eqb_refl.
  - destruct (IH fresh (update h l1 (with_content m text)) init l1
                (with_content m text) t2) as (h' & l' & E & V).
    + unfold update. now rewrite Nat.eqb_refl.
    + exact Hr.
    + simpl in Hlen |- *. lia.
    + intros r Hin. apply Hf. now right.
    + exists h', l'. split; [exact E|]. rewrite V.
      assert (Hv : view (update h l1 (with_content m text)) init = view h init)
        by (apply ConversationFacts.view_update; apply Hf; now left).
      rewrite Hv, (last_cons texts t2 text). reflexivity.
Qed.

(** When a stream has been read to its end, the assistant message that
    was last in the conversation holds the normalized text of the
    payloads of the complete frames of the stream, however the stream
    was cut into chunks, and the messages before it read as before. *)
Theorem stream_fills_the_assistant_message
        (chunks : list Str.t) (fresh : list ref) (h : store)
        (init : list ref) (l : ref) (m : Conversation.message) :
  h l = Some m ->
  role m = str "assistant" ->
  length (Stream.rendered (Stream.read_all chunks)) <= length fresh ->
  (forall r, In r fresh -> ~ In r init) ->
  exists h' l',
    set_contents fresh (Stream.rendered (Stream.read_all chunks)) h (init ++ [l])
    = Some (h', init ++ [l']) /\
    view h' (init ++ [l'])
    = view h init
      ++ [Some (with_content m
                  (preprocessText
                     (JString
                        (Stream.lines
                           (Stream.payloads
                              (removelast
                                 (split Stream.boundary (concat chunks))))))))].
Proof.
  intros Hl Hr Hlen Hf.
  assert (E : exists texts,
             Stream.rendered (Stream.read_all chunks)
             = texts ++ [preprocessText
                           (JString
                              (Stream.lines
                                 (Stream.payloads
                                    (removelast
                                       (split Stream.boundary (concat chunks))))))]).
  { rewrite (DecoderFacts.read_all_concat chunks).
    unfold Stream.read_all. cbn [fold_left Stream.rendered].
    rewrite (proj2 (DecoderFacts.feed_whole (concat chunks))).
    eexists. reflexivity. }
  destruct E as [texts E]. rewrite E in Hlen |- *.
  destruct texts as [|t1 texts].
  - cbn [app] in *. apply (@set_contents_last [] fresh h init l m _ Hl Hr Hlen Hf).
  - cbn [app] in *.
    destruct (@set_contents_last (texts ++ [_]) fresh h init l m t1 Hl Hr Hlen Hf)
      as (h' & l' & H1 & H2).
    exists h', l'. split; [exact H1|]. rewrite H2. now rewrite last_last.
Qed.

Lemma stream_fills_the_assistant_message_witness :
  exists h' l',
    set_contents [2; 3; 4]
      (Stream.rendered
         (Stream.read_all [str "data: Hello" ++ [LF; LF];
                           str "data:  world" ++ [LF; LF]]))
      (ConversationFacts.two_messages []) ([0] ++ [1])
    = Some (h', [0] ++ [l']) /\
    view h' ([0] ++ [l'])
    = [Some (mkMessage (str "user") (str "Hi") false (str "t0"));
       Some (mkMessage (str "assistant") (str "Hello world") false (str "t1"))].
Proof.
  destruct (@stream_fills_the_assistant_message
              [str "data: Hello" ++ [LF; LF]; str "data:  world" ++ [LF; LF]]
              [2; 3; 4] (ConversationFacts.two_messages []) [0] 1
              (mkMessage (str "assistant") [] false (str "t1")))
    as (h' & l' & H1 & H2).
  - reflexivity.
  - reflexivity.
  - vm_compute. lia.
  - intros r Hr [H0|[]]. subst r. simpl in Hr.
    destruct Hr as [H|[H|[H|[]]]]; discriminate.
  - exists h', l'. split; [exact H1|].
    etransitivity; [exact H2|]. vm_compute. reflexivity.
Defined.

End ChatFacts.

(** ** The stored conversation as HTML *)

Module SessionDetailFacts.

Import Re Needs ReFacts SessionDetail.

Lemma substitute_literal (n : nat) (f : found) (tpl : Str.t) :
  forallb (fun c => negb (Ascii.eqb c "$")) tpl = true ->
  substitute n tpl f = tpl.
Proof.
  induction tpl as [|c tl IH]; intro H; [reflexivity|].
  cbn [forallb] in H. apply andb_true_iff in H. destruct H as [Hc H].
  apply negb_true_iff in Hc. cbn [substitute]. rewrite Hc. now rewrite IH.
Qed.

Lemma exec_chr (c : ascii) (p : option ascii) (s : Str.t) :
  exec false (Chr c) p s
  = match s with
    | x :: _ => if Ascii.eqb c x then Some (1, []) else None
    | [] => None
    end.
Proof.
  unfold exec. cbn [m]. unfold single. cbn [rest caps].
  destruct s as [|x s]; [reflexivity|].
  destruct (Ascii.eqb c x); [|reflexivity].
  cbn [rest caps length]. f_equal. f_equal. lia.
Qed.

(** Replacing one code unit by a text without dollar sign works code
    unit by code unit. *)
Lemma replace_chr (c : ascii) (tpl s : Str.t) :
  forallb (fun c => negb (Ascii.eqb c "$")) tpl = true ->
  replace false (Chr c) tpl s
  = flat_map (fun x => if Ascii.eqb c x then tpl else [x]) s.
Proof.
  intro Ht. unfold replace, replace_with.
  generalize (@None ascii). induction s as [|x s IH]; intro p.
  - cbn [replace_go]. now rewrite exec_chr.
  - cbn [replace_go flat_map]. rewrite exec_chr.
    destruct (Ascii.eqb c x).
    + rewrite (substitute_literal _ _ _ Ht).
      specialize (IH (Some x)).
      destruct (replace_go false (Chr c) _ 0 tt (Some x) s) as [t2 out].
      cbn [snd] in *. now rewrite IH.
    + specialize (IH (Some x)).
      destruct (replace_go false (Chr c) _ 0 tt (Some x) s) as [t2 out].
      cbn [snd] in *. now rewrite IH.
Qed.

Lemma flat_map_twice (A : Type) (f g : A -> list A) (s : list A) :
  flat_map g (flat_map f s) = flat_map (fun x => flat_map g (f x)) s.
Proof.
  induction s as [|x s IH]; [reflexivity|].
  cbn [flat_map]. now rewrite flat_map_app, IH.
Qed.

Lemma escape_entities (s : Str.t) : escape s = flat_map entity s.
Proof.
  unfold escape. rewrite !replace_chr by reflexivity.
  rewrite !flat_map_twice. apply flat_map_ext. intro x. unfold entity.
  destruct (Ascii.eqb "&" x) eqn:E1.
  { apply Ascii.eqb_eq in E1. subst x. reflexivity. }
  destruct (Ascii.eqb "<" x) eqn:E2.
  { apply Ascii.eqb_eq in E2. subst x. reflexivity. }
  cbn [flat_map app]. rewrite E2. cbn [flat_map app].
  destruct (Ascii.eqb ">" x); reflexivity.
Qed.

(** Escaping works code unit by code unit: an ampersand, a less-than
    and a greater-than sign become their entities, in that order so that
    the ampersand of an entity is not escaped again, and every other
    code unit stays; the escaped text holds no angle bracket. *)
Theorem escape_leaves_no_angle_bracket (content : Str.t) :
  escape content = flat_map entity content /\
  ~ In "<"%char (escape content) /\
  ~ In ">"%char (escape content).
Proof.
  split; [apply escape_entities|]. rewrite escape_entities.
  split; intro H; apply in_flat_map in H; destruct H as (x & _ & H);
    unfold entity in H;
    destruct (Ascii.eqb "&" x);
    [ simpl in H; intuition discriminate | | simpl in H; intuition discriminate | ];
    (destruct (Ascii.eqb "<" x) eqn:E2; [simpl in H; intuition discriminate|]);
    (destruct (Ascii.eqb ">" x) eqn:E3; [simpl in H; intuition discriminate|]);
    destruct H as [H|[]]; subst x; discriminate.
Qed.

(** The code units the patterns of the fenced block and of the link
    cannot match without: the backquote and the slash. *)
Definition markup (c : ascii) : bool := Ascii.eqb c "`" || Ascii.eqb c "/".

(** What one code unit of a text without markup becomes. *)
Definition shown_as (c : ascii) : Str.t :=
  if Ascii.eqb LF c then str "<br />" else entity c.

Lemma entity_clean (x : ascii) : markup x = false -> clean markup (entity x).
Proof.
  intro H. unfold entity.
  destruct (Ascii.eqb "&" x); [repeat constructor|].
  destruct (Ascii.eqb "<" x); [repeat constructor|].
  destruct (Ascii.eqb ">" x); [repeat constructor|].
  now constructor.
Qed.

Lemma escape_clean (s : Str.t) : clean markup s -> clean markup (escape s).
Proof.
  intro H. rewrite escape_entities. unfold clean in *.
  induction H as [|x s Hx Hs IH]; [constructor|].
  cbn [flat_map]. apply Forall_app. split; [now apply entity_clean | exact IH].
Qed.

(** A content without backquote and without slash is shown as it is,
    but for the three entities and a line break tag for every line
    feed. *)
Theorem plain_content_as_html (content : Str.t) :
  cleanb markup content = true ->
  to_html content = flat_map shown_as content.
Proof.
  intro H.
  assert (Hc : clean markup content).
  { unfold cleanb, clean in *. rewrite forallb_forall in H.
    apply Forall_forall. intros c Hin. specialize (H c Hin).
    now apply negb_true_iff in H. }
  apply escape_clean in Hc. unfold to_html.
  rewrite (@replace_clean markup false re_fence _ _ eq_refl Hc).
  rewrite (@replace_clean markup false re_link _ _ eq_refl Hc).
  rewrite replace_chr by reflexivity.
  rewrite escape_entities, flat_map_twice. apply flat_map_ext. intro x.
  unfold shown_as, entity.
  destruct (Ascii.eqb LF x) eqn:E.
  { apply Ascii.eqb_eq in E. subst x. reflexivity. }
  destruct (Ascii.eqb "&" x); [reflexivity|].
  destruct (Ascii.eqb "<" x); [reflexivity|].
  destruct (Ascii.eqb ">" x); [reflexivity|].
  cbn [flat_map app]. now rewrite E.
Qed.

Lemma plain_content_as_html_witness :
  to_html (str "if a<b & b>c:" ++ [LF] ++ str "ok")
  = str "if a&lt;b &amp; b&gt;c:<br />ok".
Proof.
  rewrite (@plain_content_as_html (str "if a<b & b>c:" ++ [LF] ++ str "ok") eq_refl).
  reflexivity.
Defined.

End SessionDetailFacts.
